(** * rehttp: an HTTP transport with retries

    A shallow embedding of [rehttp.go] (package [rehttp]) and the
    properties of its retry policies, delay functions and retry loop. *)

From Stdlib Require Import ZArith String Ascii Bool Lia.
From Stdlib Require Import Floats.SpecFloat.
From stdpp Require Import gmap strings list.

Local Open Scope Z_scope.

(** ** Go values *)

(** [int], [int64] and [time.Duration] are 64-bit two's complement integers. *)
Definition min_int64 : Z := - 2 ^ 63.
Definition max_int64 : Z := 2 ^ 63 - 1.

Definition in_int64 (z : Z) : Prop := min_int64 <= z <= max_int64.

Definition wrap64 (z : Z) : Z := (z + 2 ^ 63) mod 2 ^ 64 - 2 ^ 63.

(** [time.Duration]: a count of nanoseconds. *)
Definition Duration := Z.

Definition Millisecond : Duration := 1000000.
Definition Second : Duration := 1000000000.

Definition mul64 (a b : Z) : Z := wrap64 (a * b).

(** A Go [error] value.  [err_temporary] is [Some b] when the dynamic type
    implements [Temporary() bool] (the [temporaryer] interface) and that
    method reports [b]. *)
Record error := mkError {
  err_msg : string;
  err_temporary : option bool
}.

Definition errors_New (msg : string) : error :=
  {| err_msg := msg; err_temporary := None |}.

(** Channels and response bodies are identified by their address. *)
Definition chan := positive.
Definition body_id := positive.

(** An [io.ReadCloser] used as a request body: the bytes it delivers and
    the error, if any, with which reading stops instead of [io.EOF]. *)
Record ReadCloser := mkReadCloser {
  rc_data : string;
  rc_err : option error
}.

(** [*http.Request], with the fields the package reads or writes. *)
Record Request := mkRequest {
  req_addr : positive;
  Method : string;
  Body : option ReadCloser;
  Cancel : option chan
}.

(** [*http.Response]; a response always carries a body. *)
Record Response := mkResponse {
  StatusCode : Z;
  res_Body : body_id
}.

(** [Attempt] holds the data for a RoundTrip attempt. *)
Record Attempt := mkAttempt {
  Index : Z;
  Request_ : Request;
  Response_ : option Response;
  Error : option error
}.

(** ** Effects

    A Go call returns, or panics.  [Diverge] only marks a loop of the
    model that was cut short by its fuel. *)
Inductive result (A : Type) : Type :=
  | Ret (a : A)
  | Panic (msg : string)
  | Diverge.
Arguments Ret {A} a.
Arguments Panic {A} msg.
Arguments Diverge {A}.

(** [*rand.Rand].  [rand_src k] is the [k]-th value the generator hands
    out and [rand_pos] counts the values consumed so far. *)
Record Rand := mkRand {
  rand_src : nat -> Z;
  rand_pos : nat
}.

(** The backing arrays of [[]string] slices live in a heap, so that a
    slice shared between a caller and a closure is one object. *)
Definition loc := positive.

Record slice := mkSlice {
  sl_arr : loc;
  sl_off : nat;
  sl_len : nat
}.

(** The package-level state the policy functions run on: the global
    [PRNG] and the heap of string arrays. *)
Record GoState := mkGoState {
  PRNG : Rand;
  heap : gmap loc (list string)
}.

Definition M (A : Type) : Type := GoState -> result A * GoState.

Definition ret {A} (a : A) : M A := fun s => (Ret a, s).

Definition panic {A} (msg : string) : M A := fun s => (Panic msg, s).

Definition bind {A B} (m : M A) (k : A -> M B) : M B :=
  fun s =>
    match m s with
    | (Ret a, s') => k a s'
    | (Panic msg, s') => (Panic msg, s')
    | (Diverge, s') => (Diverge, s')
    end.

Declare Scope go_scope.
Delimit Scope go_scope with go.
Notation "'let!' x ':=' m 'in' k" := (bind m (fun x => k))
  (at level 10, x name, m at level 200, k at level 200,
   format "'[v' 'let!'  x  :=  m  'in'  '/' k ']'") : go_scope.
Local Open Scope go_scope.

(** [r.Int63n(n)]: a non-negative number in the half-open interval
    [[0, n)]; it panics if [n <= 0].  Every sequence of values a
    conforming generator can return is the image of some [rand_src]. *)
Definition Int63n (n : Z) : M Z :=
  fun s =>
    if n <=? 0 then (Panic "invalid argument to Int63n", s)
    else
      let r := PRNG s in
      (Ret (rand_src r (rand_pos r) mod n),
       {| PRNG := {| rand_src := rand_src r; rand_pos := S (rand_pos r) |};
          heap := heap s |}).

(** ** Function types of the package *)

(** [retryFn]: the signature of functions that implement retry strategies. *)
Definition retryFn := Attempt -> M (bool * Duration).

(** [DelayFn]: the delay to apply before the next retry. *)
Definition DelayFn := Attempt -> M Duration.

(** [ShouldRetryFn]: whether a retry should be done for the request. *)
Definition ShouldRetryFn := Attempt -> M bool.

(** [toRetryFn] combines shouldRetry and delay into a retryFn. *)
Definition toRetryFn (shouldRetry : ShouldRetryFn) (delay : DelayFn) : retryFn :=
  fun attempt =>
    let! retry := shouldRetry attempt in
    if negb retry then ret (false, 0)
    else let! d := delay attempt in ret (true, d).

(** [RetryAny]: a retry is allowed as long as one of the functions returns
    true, evaluated in order and stopping at the first one. *)
Fixpoint RetryAny (retryFns : list ShouldRetryFn) : ShouldRetryFn :=
  fun attempt =>
    match retryFns with
    | [] => ret false
    | fn :: rest =>
        let! b := fn attempt in
        if b then ret true else RetryAny rest attempt
    end.

(** [RetryAll]: a retry is allowed if all functions return true. *)
Fixpoint RetryAll (retryFns : list ShouldRetryFn) : ShouldRetryFn :=
  fun attempt =>
    match retryFns with
    | [] => ret true
    | fn :: rest =>
        let! b := fn attempt in
        if negb b then ret false else RetryAll rest attempt
    end.

(** [RetryTemporaryErr]: up to [maxRetries] retries for a temporary error. *)
Definition RetryTemporaryErr (maxRetries : Z) : ShouldRetryFn :=
  fun attempt =>
    if Index attempt >=? maxRetries then ret false
    else
      match Error attempt with
      | Some {| err_temporary := Some t |} => ret t
      | _ => ret false
      end.

(** [RetryStatus500]: up to [maxRetries] retries for a status code 5xx. *)
Definition RetryStatus500 (maxRetries : Z) : ShouldRetryFn :=
  fun attempt =>
    if Index attempt >=? maxRetries then ret false
    else
      ret (match Response_ attempt with
           | Some res => (StatusCode res >=? 500) && (StatusCode res <? 600)
           | None => false
           end).

(** [ConstDelay] always returns the same delay. *)
Definition ConstDelay (delay : Duration) : DelayFn :=
  fun _ => ret delay.

(** Modelled from the spec: [LinearDelay] is not defined in [rehttp.go]
    (only [TestLinearDelay] in [rehttp_test.go] calls it).  The spec gives
    it as [base * (index + 1)], a product of [time.Duration] values. *)
Definition LinearDelay (base : Duration) : DelayFn :=
  fun attempt => ret (mul64 base (Index attempt + 1)).

(** Modelled from the spec: [NoDelay] is not defined in [rehttp.go]
    either; the spec gives it as always 0. *)
Definition NoDelay : DelayFn :=
  fun _ => ret 0.

(** ** Strings *)

Section Strings.

(** [strings.Map(unicode.ToUpper, s)], which [strings.ToUpper] falls back
    on for a string that holds a byte outside ASCII; it depends on the
    Unicode tables of the Go release. *)
Variable unicode_ToUpper : string -> string.

Definition byte_val (c : ascii) : N := N_of_ascii c.

(** [c >= utf8.RuneSelf] *)
Definition not_ascii (c : ascii) : bool := (128 <=? byte_val c)%N.

(** ['a' <= c && c <= 'z'] *)
Definition is_lower (c : ascii) : bool :=
  ((97 <=? byte_val c) && (byte_val c <=? 122))%N.

Fixpoint isASCII (s : string) : bool :=
  match s with
  | EmptyString => true
  | String c rest => negb (not_ascii c) && isASCII rest
  end.

Fixpoint hasLower (s : string) : bool :=
  match s with
  | EmptyString => false
  | String c rest => is_lower c || hasLower rest
  end.

(** [c -= 'a' - 'A'] on the lower-case bytes. *)
Definition upper_byte (c : ascii) : ascii :=
  if is_lower c then ascii_of_N (byte_val c - 32) else c.

Fixpoint upper_bytes (s : string) : string :=
  match s with
  | EmptyString => EmptyString
  | String c rest => String (upper_byte c) (upper_bytes rest)
  end.

(** [strings.ToUpper] *)
Definition ToUpper (s : string) : string :=
  if isASCII s then
    if negb (hasLower s) then s else upper_bytes s
  else unicode_ToUpper s.

(** ** Slices of strings *)

(** [methods[i]], with Go's bounds check. *)
Definition slice_get (sl : slice) (i : nat) : M string :=
  fun s =>
    match heap s !! sl_arr sl with
    | Some a =>
        if (i <? sl_len sl)%nat then
          match a !! (sl_off sl + i)%nat with
          | Some v => (Ret v, s)
          | None => (Panic "index out of range", s)
          end
        else (Panic "index out of range", s)
    | None => (Panic "index out of range", s)
    end.

(** [methods[i] = v]: the element of the shared backing array is
    overwritten. *)
Definition slice_set (sl : slice) (i : nat) (v : string) : M unit :=
  fun s =>
    match heap s !! sl_arr sl with
    | Some a =>
        if (i <? sl_len sl)%nat && (sl_off sl + i <? length a)%nat then
          (Ret tt, {| PRNG := PRNG s;
                      heap := <[sl_arr sl := <[(sl_off sl + i)%nat := v]> a]> (heap s) |})
        else (Panic "index out of range", s)
    | None => (Panic "index out of range", s)
    end.

(** [for i, m := range methods { methods[i] = strings.ToUpper(m) }],
    from index [i] on, with [n] elements left. *)
Fixpoint upper_loop (methods : slice) (i n : nat) : M unit :=
  match n with
  | O => ret tt
  | S n' =>
      let! m := slice_get methods i in
      let! _ := slice_set methods i (ToUpper m) in
      upper_loop methods (S i) n'
  end.

(** [for _, m := range methods { if curMeth == m { return true } }; return false] *)
Fixpoint match_loop (methods : slice) (curMeth : string) (i n : nat) : M bool :=
  match n with
  | O => ret false
  | S n' =>
      let! m := slice_get methods i in
      if String.eqb curMeth m then ret true
      else match_loop methods curMeth (S i) n'
  end.

(** [RetryHTTPMethods]: retries up to [maxRetries] times if the request's
    HTTP method is one of the provided methods.  The variadic parameter
    is a slice; the returned closure keeps it and reads it at each call. *)
Definition RetryHTTPMethods (maxRetries : Z) (methods : slice) : M ShouldRetryFn :=
  let! _ := upper_loop methods 0 (sl_len methods) in
  ret (fun attempt =>
         if Index attempt >=? maxRetries then ret false
         else
           let curMeth := ToUpper (Method (Request_ attempt)) in
           match_loop methods curMeth 0 (sl_len methods)).

(** The elements a slice denotes in a heap. *)
Definition slice_elems (h : gmap loc (list string)) (sl : slice) : list string :=
  match h !! sl_arr sl with
  | Some a => take (sl_len sl) (drop (sl_off sl) a)
  | None => []
  end.

(** A slice lies within its backing array. *)
Definition slice_ok (h : gmap loc (list string)) (sl : slice) : Prop :=
  match h !! sl_arr sl with
  | Some a => (sl_off sl + sl_len sl <= length a)%nat
  | None => False
  end.

End Strings.

(** ** float64 arithmetic

    [float64] values are IEEE 754 binary64 numbers; the operations are
    the ones of the Standard Library's executable specification. *)

Definition prec : Z := 53.
Definition emax : Z := 1024.

Definition float64 := spec_float.

(** [float64(z)] for an integer [z]: rounded to nearest, ties to even. *)
Definition float64_of_int (z : Z) : float64 :=
  binary_normalize prec emax z 0 false.

(** The integer part of a finite float (truncation toward zero). *)
Definition float_trunc (f : float64) : Z :=
  match f with
  | S754_finite s m e =>
      cond_Zopp s
        (match e with
         | Z0 => Zpos m
         | Zpos p => Zpos m * 2 ^ Zpos p
         | Zneg p => Zpos m / 2 ^ Zpos p
         end)
  | _ => 0
  end.

(** [math.Pow(2, y)] at an integral [y], as [float64(attempt.Index)] is:
    [Pow] multiplies mantissa and exponent of [Frexp(2)] separately and
    ends in [Ldexp], so the result is the correctly rounded [2^y]
    ([+Inf] from [2^1024] on, [0] below the subnormals). *)
Definition math_Pow2 (y : float64) : float64 :=
  match y with
  | S754_nan => S754_nan
  | S754_infinity false => S754_infinity false
  | S754_infinity true => S754_zero false
  | _ =>
      if float_trunc y <? -1100 then S754_zero false
      else SFldexp prec emax (SFone prec emax) (float_trunc y)
  end.

Definition is_nan (f : float64) : bool :=
  match f with S754_nan => true | _ => false end.

Definition is_neg_inf (f : float64) : bool :=
  match f with S754_infinity true => true | _ => false end.

Definition is_zero (f : float64) : bool :=
  match f with S754_zero _ => true | _ => false end.

Definition signbit (f : float64) : bool :=
  match f with
  | S754_zero s | S754_infinity s | S754_finite s _ _ => s
  | S754_nan => false
  end.

(** [math.Min] *)
Definition math_Min (x y : float64) : float64 :=
  if is_neg_inf x || is_neg_inf y then S754_infinity true
  else if is_nan x || is_nan y then S754_nan
  else if is_zero x && is_zero y then (if signbit x then x else y)
  else if SFltb x y then x else y.

Section Delay.

(** The conversion [int64(f)] truncates toward zero; when the result type
    cannot represent the value, Go leaves the result to the
    implementation: [conv_unrepresentable f] is what this one gives. *)
Variable conv_unrepresentable : float64 -> Z.

Definition int64_of_float64 (f : float64) : Z :=
  match f with
  | S754_zero _ => 0
  | S754_finite _ _ _ =>
      let z := float_trunc f in
      if (min_int64 <=? z) && (z <=? max_int64) then z
      else wrap64 (conv_unrepresentable f)
  | _ => wrap64 (conv_unrepresentable f)
  end.

(** The argument [ExponentialDelay] hands to [PRNG.Int63n]:
    [int64(math.Min(float64(max), float64(base) * math.Pow(2, float64(attempt.Index))))]. *)
Definition exp_top (base : Duration) (index : Z) : float64 :=
  let exp := math_Pow2 (float64_of_int index) in
  SFmul prec emax (float64_of_int base) exp.

Definition exp_bound (base max : Duration) (index : Z) : Z :=
  int64_of_float64 (math_Min (float64_of_int max) (exp_top base index)).

(** [ExponentialDelay] returns a delay between 0 and base * 2^attempt,
    capped at max. *)
Definition ExponentialDelay (base max : Duration) : DelayFn :=
  fun attempt =>
    let exp := math_Pow2 (float64_of_int (Index attempt)) in
    let top := SFmul prec emax (float64_of_int base) exp in
    Int63n (int64_of_float64 (math_Min (float64_of_int max) top)).

End Delay.

(** ** The transport *)

(** [bytes.Reader]: the bytes and the current reading index. *)
Record Reader := mkReader {
  rd_s : string;
  rd_i : Z
}.

Definition bytes_NewReader (b : string) : Reader :=
  {| rd_s := b; rd_i := 0 |}.

(** The [Seek] method of [bytes.Reader]. *)
Definition Reader_Seek (r : Reader) (offset whence : Z) : Reader * option error :=
  let abs :=
    match whence with
    | 0 => Some offset
    | 1 => Some (wrap64 (rd_i r + offset))
    | 2 => Some (wrap64 (Z.of_nat (String.length (rd_s r)) + offset))
    | _ => None
    end in
  match abs with
  | None => (r, Some (errors_New "bytes.Reader.Seek: invalid whence"))
  | Some a =>
      if a <? 0 then (r, Some (errors_New "bytes.Reader.Seek: negative position"))
      else ({| rd_s := rd_s r; rd_i := a |}, None)
  end.

(** [ioutil.NopCloser(br)]: what is left to read of the buffered bytes. *)
Definition NopCloser (br : Reader) : ReadCloser :=
  {| rc_data := String.substring (Z.to_nat (rd_i br))
                  (String.length (rd_s br) - Z.to_nat (rd_i br)) (rd_s br);
     rc_err := None |}.

(** The [Read] method of [bytes.Reader], called until it reports
    [io.EOF]: the reading index ends at the end of the bytes (and stays
    where it is when it is already beyond).  This is what an attempt does
    to the body it is handed: "a request attempt will consume and close
    the existing body". *)
Definition Reader_consumed (r : Reader) : Reader :=
  {| rd_s := rd_s r;
     rd_i := Z.max (rd_i r) (Z.of_nat (String.length (rd_s r))) |}.

(** What the transport does to the objects around it, in order. *)
Inductive event :=
  | EvRoundTrip (req : Request)      (* a call of the wrapped RoundTripper *)
  | EvCloseRequestBody               (* req.Body.Close() on the original body *)
  | EvDrainClose (b : body_id)       (* io.Copy(ioutil.Discard, res.Body); res.Body.Close() *)
  | EvWait (delay : Duration).       (* the select on time.After(delay) *)

Definition is_attempt (e : event) : bool :=
  match e with EvRoundTrip _ => true | _ => false end.

(** The number of attempts issued to the wrapped RoundTripper. *)
Definition attempts_issued (tr : list event) : nat :=
  length (filter (fun e => is_attempt e = true) tr).

(** What other goroutines do while [RoundTrip] is blocked: a call of
    [t.CancelRequest(req)], or the caller closing a channel such as
    [req.Cancel]. *)
Inductive env_action :=
  | CallCancelRequest (req : Request)
  | CloseChan (c : chan).

(** Where [RoundTrip] blocks: in the attempt with a given index, or in the
    [select] that follows it. *)
Inductive phase :=
  | InFlight (attempt : Z)
  | Waiting (attempt : Z).

(** The retry configuration of a [Transport]. *)
Record Transport := mkTransport {
  PreventRetryWithBody : bool;
  retry : retryFn
}.

Section RoundTripper.

(** The wrapped [CancelRoundTripper]: its state and its two methods. *)
Variable X : Type.
Variable rt_RoundTrip : Request -> X -> (option Response * option error) * X.
Variable rt_CancelRequest : Request -> X -> X.

(** The actions of the other goroutines during each blocking phase. *)
Variable sched : phase -> list env_action.

(** Everything [RoundTrip] runs on: the package state, the wrapped
    RoundTripper, the transport's [reqCh] map ([None] is the nil map), the
    closed channels, the next fresh channel and the log of effects. *)
Record World := mkWorld {
  gs : GoState;
  rt : X;
  reqCh : option (gmap positive chan);
  closed : gset chan;
  next_chan : chan;
  trace : list event
}.

Definition log (e : event) (w : World) : World :=
  {| gs := gs w; rt := rt w; reqCh := reqCh w; closed := closed w;
     next_chan := next_chan w; trace := trace w ++ [e] |}.

Definition set_gs (g : GoState) (w : World) : World :=
  {| gs := g; rt := rt w; reqCh := reqCh w; closed := closed w;
     next_chan := next_chan w; trace := trace w |}.

Definition set_rt (x : X) (w : World) : World :=
  {| gs := gs w; rt := x; reqCh := reqCh w; closed := closed w;
     next_chan := next_chan w; trace := trace w |}.

Definition set_reqCh (m : option (gmap positive chan)) (w : World) : World :=
  {| gs := gs w; rt := rt w; reqCh := m; closed := closed w;
     next_chan := next_chan w; trace := trace w |}.

(** [close(ch)] *)
Definition close_chan (c : chan) (w : World) : World :=
  {| gs := gs w; rt := rt w; reqCh := reqCh w; closed := {[c]} ∪ closed w;
     next_chan := next_chan w; trace := trace w |}.

(** [make(chan struct{})] *)
Definition make_chan (w : World) : chan * World :=
  (next_chan w,
   {| gs := gs w; rt := rt w; reqCh := reqCh w; closed := closed w;
      next_chan := Pos.succ (next_chan w); trace := trace w |}).

(** [delete(t.reqCh, req)]; deleting from the nil map does nothing. *)
Definition delete_reqCh (req : Request) (w : World) : World :=
  set_reqCh (delete (req_addr req) <$> reqCh w) w.

(** [CancelRequest] cancels the specified request, preventing any pending
    retry. *)
Definition CancelRequest (req : Request) (w : World) : World :=
  let ch :=
    match reqCh w with
    | Some m => m !! req_addr req
    | None => None
    end in
  let w1 :=
    match reqCh w with
    | Some m => delete_reqCh req w
    | None => w
    end in
  let w2 :=
    match ch with
    | Some c => close_chan c w1
    | None => w1
    end in
  set_rt (rt_CancelRequest req (rt w2)) w2.

Definition env_step (a : env_action) (w : World) : World :=
  match a with
  | CallCancelRequest req => CancelRequest req w
  | CloseChan c => close_chan c w
  end.

Definition env_run (acts : list env_action) (w : World) : World :=
  fold_left (fun w a => env_step a w) acts w.

(** The local variables of [RoundTrip] that live across iterations. *)
Record LoopState := mkLoopState {
  ls_attempt : Z;
  ls_req : Request;
  ls_preventRetry : bool;
  ls_ch : chan;
  ls_br : option Reader
}.

Definition set_Body (b : option ReadCloser) (req : Request) : Request :=
  {| req_addr := req_addr req; Method := Method req; Body := b;
     Cancel := Cancel req |}.

(** How one step of [RoundTrip] ends. *)
Inductive outcome :=
  | Return (res : option Response) (err : option error)
  | Panicked (msg : string)
  | Diverged.

Definition canceled : error := errors_New "net/http: request canceled".

(** The statements of [RoundTrip] before its loop: registration of the
    cancellation channel and buffering of the body. *)
Definition RoundTrip_enter (t : Transport) (req : Request) (w : World)
  : (outcome + LoopState) * World :=
  let preventRetry := bool_decide (is_Some (Body req)) && PreventRetryWithBody t in
  let '(ch, w) := make_chan w in
  let w := match reqCh w with
           | None => set_reqCh (Some ∅) w
           | Some _ => w
           end in
  let w := set_reqCh (<[req_addr req := ch]> <$> reqCh w) w in
  match Body req with
  | Some body =>
      if negb preventRetry then
        match rc_err body with
        | Some err =>
            (* cannot even try the first attempt, body has been consumed *)
            (inl (Return None (Some err)), log EvCloseRequestBody w)
        | None =>
            let w := log EvCloseRequestBody w in
            let br := bytes_NewReader (rc_data body) in
            (inr {| ls_attempt := 0; ls_req := set_Body (Some (NopCloser br)) req;
                    ls_preventRetry := preventRetry; ls_ch := ch;
                    ls_br := Some br |}, w)
        end
      else
        (inr {| ls_attempt := 0; ls_req := req; ls_preventRetry := preventRetry;
                ls_ch := ch; ls_br := None |}, w)
  | None =>
      (inr {| ls_attempt := 0; ls_req := req; ls_preventRetry := preventRetry;
              ls_ch := ch; ls_br := None |}, w)
  end.

(** [res, err := t.CancelRoundTripper.RoundTrip(req)]: what the other
    goroutines do while the attempt is in flight is seen by the wrapped
    RoundTripper, which then completes the attempt. *)
Definition issue_attempt (st : LoopState) (w : World)
  : option Response * option error * World :=
  let w := env_run (sched (InFlight (ls_attempt st))) w in
  let '(res, err, x) := rt_RoundTrip (ls_req st) (rt w) in
  (res, err, log (EvRoundTrip (ls_req st)) (set_rt x w)).

(** One iteration of the loop up to its [select]: either [RoundTrip]
    ends there, or it is about to wait for [delay]. *)
Definition attempt_and_decide (t : Transport) (st : LoopState) (w : World)
  : (outcome + Duration * LoopState) * World :=
  let '(res, err, w) := issue_attempt st w in
  if ls_preventRetry st then (inl (Return res err), w)
  else
    match retry t {| Index := ls_attempt st; Request_ := ls_req st;
                     Response_ := res; Error := err |} (gs w) with
    | (Panic msg, g) => (inl (Panicked msg), set_gs g w)
    | (Diverge, g) => (inl Diverged, set_gs g w)
    | (Ret (false, _), g) => (inl (Return res err), set_gs g w)
    | (Ret (true, delay), g) =>
        let w := set_gs g w in
        let rewound :=
          match ls_br st with
          | Some br =>
              (* the attempt has read [req.Body], which wraps [br] *)
              match Reader_Seek (Reader_consumed br) 0 0 with
              | (_, Some serr) => None
              | (br', None) =>
                  Some {| ls_attempt := ls_attempt st;
                          ls_req := set_Body (Some (NopCloser br')) (ls_req st);
                          ls_preventRetry := ls_preventRetry st;
                          ls_ch := ls_ch st; ls_br := Some br' |}
              end
          | None => Some st
          end in
        match rewound with
        | None => (* failed to retry, return the results *)
            (inl (Return res err), w)
        | Some st' =>
            (* close the disposed response's body, if any *)
            let w := match res with
                     | Some r => log (EvDrainClose (res_Body r)) w
                     | None => w
                     end in
            (inr (delay, st'), w)
        end
    end.

(** [<-req.Cancel] or [<-ch] can proceed: the channel has been closed. *)
Definition cancel_fired (st : LoopState) (w : World) : bool :=
  match Cancel (ls_req st) with
  | Some c => bool_decide (c ∈ closed w)
  | None => false
  end || bool_decide (ls_ch st ∈ closed w).

(** The [select]: a cancellation that fires during the wait is taken;
    otherwise the timer of [time.After(delay)] elapses. *)
Definition select_wait (st : LoopState) (delay : Duration) (w : World)
  : (outcome + LoopState) * World :=
  let w := env_run (sched (Waiting (ls_attempt st))) (log (EvWait delay) w) in
  if cancel_fired st w then
    (* request canceled, don't retry *)
    (inl (Return None (Some canceled)), w)
  else
    (inr {| ls_attempt := wrap64 (ls_attempt st + 1); ls_req := ls_req st;
            ls_preventRetry := ls_preventRetry st; ls_ch := ls_ch st;
            ls_br := ls_br st |}, w).

Definition loop_body (t : Transport) (st : LoopState) (w : World)
  : (outcome + LoopState) * World :=
  match attempt_and_decide t st w with
  | (inl o, w) => (inl o, w)
  | (inr (delay, st), w) => select_wait st delay w
  end.

(** [for { ... }], cut after [fuel] iterations. *)
Fixpoint loop (fuel : nat) (t : Transport) (st : LoopState) (w : World)
  : outcome * World :=
  match fuel with
  | O => (Diverged, w)
  | S fuel' =>
      match loop_body t st w with
      | (inl o, w) => (o, w)
      | (inr st, w) => loop fuel' t st w
      end
  end.

(** [RoundTrip] implements http.RoundTripper for the Transport type.  The
    deferred [delete(t.reqCh, req)] runs when the function returns or
    panics. *)
Definition RoundTrip (fuel : nat) (t : Transport) (req : Request) (w : World)
  : outcome * World :=
  let '(o, w) :=
    match RoundTrip_enter t req w with
    | (inl o, w) => (o, w)
    | (inr st, w) => loop fuel t st w
    end in
  match o with
  | Diverged => (o, w)
  | _ => (o, delete_reqCh req w)
  end.

(** The state of the loop after [k] full iterations, if it gets there. *)
Fixpoint iterate (k : nat) (t : Transport) (st : LoopState) (w : World)
  : option (LoopState * World) :=
  match k with
  | O => Some (st, w)
  | S k' =>
      match loop_body t st w with
      | (inr st, w) => iterate k' t st w
      | (inl _, _) => None
      end
  end.

(** The channel [ch] of the request at address [a] can still be closed by
    [CancelRequest], or is closed already. *)
Definition registered (a : positive) (ch : chan) (w : World) : Prop :=
  (exists m, reqCh w = Some m /\ m !! a = Some ch) \/ ch ∈ closed w.

(** What holds of the loop state at the head of every iteration. *)
Definition loop_inv (req : Request) (ch : chan) (st : LoopState) (w : World) : Prop :=
  req_addr (ls_req st) = req_addr req /\
  Cancel (ls_req st) = Cancel req /\
  ls_ch st = ch /\
  registered (req_addr req) ch w.

End RoundTripper.

(** ** Construction *)

(** A [CancelRoundTripper]: a RoundTripper that supports CancelRequest,
    as the two methods over its state. *)
Record CancelRoundTripper (X : Type) := mkCancelRoundTripper {
  crt_RoundTrip : Request -> X -> (option Response * option error) * X;
  crt_CancelRequest : Request -> X -> X
}.
Arguments crt_RoundTrip {X} _ _ _.
Arguments crt_CancelRequest {X} _ _ _.

(** [NewTransport] creates a Transport with a retry strategy based on
    shouldRetry and delay.  [DefaultTransport] is [http.DefaultTransport]
    seen through the type assertion [.(CancelRoundTripper)]: [None] when
    the assertion fails.  A nil [rt] is [None].  The result pairs the
    embedded CancelRoundTripper with the other fields of the Transport. *)
Definition NewTransport {X : Type}
    (DefaultTransport : option (CancelRoundTripper X))
    (rt : option (CancelRoundTripper X))
    (shouldRetry : ShouldRetryFn) (delay : DelayFn)
  : option (CancelRoundTripper X * Transport) * option error :=
  let t := {| PreventRetryWithBody := false;
              retry := toRetryFn shouldRetry delay |} in
  match rt with
  | None =>
      match DefaultTransport with
      | Some d => (Some (d, t), None)
      | None =>
          (None, Some (errors_New "http.DefaultTransport is not a CancelRoundTripper"))
      end
  | Some r => (Some (r, t), None)
  end.

(** ** Vocabulary of the properties *)

(** A decision function that refuses every attempt from index [n] on. *)
Definition stops_at (n : Z) (fn : ShouldRetryFn) : Prop :=
  forall (attempt : Attempt) (s : GoState),
    n <= Index attempt -> exists s', fn attempt s = (Ret false, s').

(** An action of another goroutine that is about another request: a
    [CancelRequest] for a request at another address, or the closing of a
    channel that is neither [ch] nor [req.Cancel]. *)
Definition foreign_action (req : Request) (ch : chan) (a : env_action) : Prop :=
  match a with
  | CallCancelRequest r => req_addr r <> req_addr req
  | CloseChan c => c <> ch /\ Cancel req <> Some c
  end.

(** The channel [ch] belongs to the request alone: it is open, so is
    [req.Cancel], and the channels registered for the other requests are
    neither [ch] nor [req.Cancel]. *)
Definition owned {X : Type} (req : Request) (ch : chan) (w : World X) : Prop :=
  (ch ∉ closed X w) /\
  (forall c, Cancel req = Some c -> c ∉ closed X w) /\
  (forall m a c, reqCh X w = Some m -> m !! a = Some c -> a <> req_addr req ->
                 c <> ch /\ Cancel req <> Some c).

(** What the transport logs when it gives up a response to retry:
    the drain and the close of its body, if there is a response. *)
Definition drained (res : option Response) : list event :=
  match res with
  | Some r => [EvDrainClose (res_Body r)]
  | None => []
  end.

(** ** Concrete inputs used in the examples below *)

(** The conversion of amd64: every unrepresentable value becomes the
    smallest [int64]. *)
Definition conv_amd64 (f : float64) : Z := min_int64.

(** A generator that always hands out [v], and an initial package state
    around a generator. *)
Definition rand_const (v : Z) : Rand :=
  {| rand_src := fun _ => v; rand_pos := O |}.

Definition go0 (r : Rand) : GoState := {| PRNG := r; heap := ∅ |}.

Definition get_request (addr : positive) (meth : string) : Request :=
  {| req_addr := addr; Method := meth; Body := None; Cancel := None |}.

Definition attempt0 (i : Z) : Attempt :=
  {| Index := i; Request_ := get_request 1 "GET";
     Response_ := None; Error := None |}.

(** No table for the characters outside ASCII. *)
Definition no_unicode (s : string) : string := s.

(** A heap holding one array of method names, and slices of it. *)
Definition methods_heap (a : list string) : GoState :=
  {| PRNG := rand_const 0; heap := {[ 1%positive := a ]} |}.

Definition all_of (a : list string) : slice :=
  {| sl_arr := 1%positive; sl_off := 0; sl_len := length a |}.

Definition method_attempt (i : Z) (meth : string) : Attempt :=
  {| Index := i; Request_ := get_request 1 meth;
     Response_ := None; Error := None |}.

(** One case of [TestRetryHTTPMethods]: build the predicate, then ask it. *)
Definition try_RetryHTTPMethods (retries : Z) (meths : list string)
    (inMeth : string) (att : Z) : result bool :=
  match RetryHTTPMethods no_unicode retries (all_of meths) (methods_heap meths) with
  | (Ret fn, s) => fst (fn (method_attempt att inMeth) s)
  | (Panic msg, _) => Panic msg
  | (Diverge, _) => Diverge
  end.

(** A wrapped RoundTripper that answers 503 to the first call and 200 to
    the later ones; its state counts the calls. *)
Definition res503 : Response := {| StatusCode := 503; res_Body := 10%positive |}.
Definition res200 : Response := {| StatusCode := 200; res_Body := 11%positive |}.

Definition rt_503_then_200 (req : Request) (calls : nat)
  : (option Response * option error) * nat :=
  match calls with
  | O => ((Some res503, None), S calls)
  | _ => ((Some res200, None), S calls)
  end.

Definition rt_ignore_cancel (req : Request) (calls : nat) : nat := calls.

Definition world0 : World nat :=
  {| gs := go0 (rand_const 0); rt := O; reqCh := None; closed := ∅;
     next_chan := 1%positive; trace := [] |}.

Definition quiet : phase -> list env_action := fun _ => [].

(** Some goroutine calls [CancelRequest] during the first wait. *)
Definition cancel_in_first_wait (req : Request) : phase -> list env_action :=
  fun p =>
    match p with
    | Waiting 0 => [CallCancelRequest req]
    | _ => []
    end.

(** The caller closes [req.Cancel] during the first wait. *)
Definition close_in_first_wait (c : chan) : phase -> list env_action :=
  fun p =>
    match p with
    | Waiting 0 => [CloseChan c]
    | _ => []
    end.

Definition retry_5xx : Transport :=
  {| PreventRetryWithBody := false;
     retry := toRetryFn (RetryStatus500 3) (ConstDelay Second) |}.

Definition always_retry_no_body : Transport :=
  {| PreventRetryWithBody := true;
     retry := fun _ => ret (true, Second) |}.

Definition read_failed : error := errors_New "unexpected EOF".

Definition post_request (body : ReadCloser) : Request :=
  {| req_addr := 2%positive; Method := "POST"; Body := Some body;
     Cancel := Some 100%positive |}.

(** A wrapped RoundTripper that always answers 503. *)
Definition rt_always_503 (req : Request) (calls : nat)
  : (option Response * option error) * nat :=
  ((Some res503, None), S calls).

(** Some goroutine calls [CancelRequest] during the second wait. *)
Definition cancel_in_second_wait (req : Request) : phase -> list env_action :=
  fun p =>
    match p with
    | Waiting 1 => [CallCancelRequest req]
    | _ => []
    end.

(** Retry GET requests answered with a 5xx status, at most 3 times. *)
Definition retry_5xx_get : M Transport :=
  let! byMethod := RetryHTTPMethods no_unicode 3 (all_of ["get"]) in
  ret {| PreventRetryWithBody := false;
         retry := toRetryFn (RetryAll [RetryStatus500 3; byMethod])
                    (ConstDelay Second) |}.

(** A transport whose delay function panics: an exponential delay with
    a zero base. *)
Definition retry_5xx_zero_base : Transport :=
  {| PreventRetryWithBody := false;
     retry := toRetryFn (RetryStatus500 3) (ExponentialDelay conv_amd64 0 Second) |}.


(** In every phase some goroutine cancels another request. *)
Definition cancel_another : phase -> list env_action :=
  fun _ => [CallCancelRequest (get_request 5 "GET")].

(** A world in which another request, at address 5, is in flight. *)
Definition world1 : World nat :=
  {| gs := go0 (rand_const 0); rt := O; reqCh := Some {[ 5%positive := 50%positive ]};
     closed := ∅; next_chan := 51%positive; trace := [] |}.

(** An attempt answered with a 503, and one answered with a 200. *)
Definition attempt_503 (i : Z) : Attempt :=
  {| Index := i; Request_ := get_request 1 "GET";
     Response_ := Some res503; Error := None |}.

Definition attempt_200 (i : Z) (meth : string) : Attempt :=
  {| Index := i; Request_ := get_request 1 meth;
     Response_ := Some res200; Error := None |}.

(** The loop state of [RoundTrip] for a GET without body, at its start. *)
Definition first_iteration : LoopState :=
  {| ls_attempt := 0; ls_req := get_request 1 "GET"; ls_preventRetry := false;
     ls_ch := 1%positive; ls_br := None |}.

Definition crt_503_then_200 : CancelRoundTripper nat :=
  {| crt_RoundTrip := rt_503_then_200; crt_CancelRequest := rt_ignore_cancel |}.

(** A decision function that must not be reached. *)
Definition unreachable_fn : ShouldRetryFn := fun _ => panic "unreachable".

(** * Properties *)

(** ** Integers *)

Lemma wrap64_id (z : Z) : in_int64 z -> wrap64 z = z.
Proof.
  unfold in_int64, min_int64, max_int64, wrap64. intros H.
  rewrite Z.mod_small; lia.
Qed.

Lemma wrap64_range (z : Z) : in_int64 (wrap64 z).
Proof.
  unfold in_int64, min_int64, max_int64, wrap64.
  pose proof (Z.mod_pos_bound (z + 2 ^ 63) (2 ^ 64)). lia.
Qed.

(** ** The monad *)

Lemma bind_ret_l {A B} (a : A) (k : A -> M B) (s : GoState) :
  bind (ret a) k s = k a s.
Proof. reflexivity. Qed.

Lemma bind_Ret {A B} (m : M A) (k : A -> M B) (s s' : GoState) (a : A) :
  m s = (Ret a, s') -> bind m k s = k a s'.
Proof. unfold bind. intros ->. reflexivity. Qed.

Lemma bind_Panic {A B} (m : M A) (k : A -> M B) (s s' : GoState) msg :
  m s = (Panic msg, s') -> bind m k s = (Panic msg, s').
Proof. unfold bind. intros ->. reflexivity. Qed.

(** ** Policy composition *)

(** C7: whenever the decision function returns false for an attempt, the
    retry function built by [toRetryFn] returns [(false, 0)] and leaves
    the state exactly as the decision function left it, whatever the delay
    function is: the delay function is not run, and no value of the
    generator is consumed for it. *)
Theorem toRetryFn_false_skips_delay
    (shouldRetry : ShouldRetryFn) (delay : DelayFn) (attempt : Attempt)
    (s s' : GoState) :
  shouldRetry attempt s = (Ret false, s') ->
  toRetryFn shouldRetry delay attempt s = (Ret (false, 0), s').
Proof.
  intros H. unfold toRetryFn. rewrite (bind_Ret _ _ _ _ _ H). reflexivity.
Qed.

Lemma toRetryFn_false_skips_delay_witness :
  RetryStatus500 3 (attempt0 0) (go0 (rand_const 7)) = (Ret false, go0 (rand_const 7)) /\
  ExponentialDelay conv_amd64 0 Second (attempt0 0) (go0 (rand_const 7))
    = (Panic "invalid argument to Int63n", go0 (rand_const 7)) /\
  toRetryFn (RetryStatus500 3) (ExponentialDelay conv_amd64 0 Second)
    (attempt0 0) (go0 (rand_const 7)) = (Ret (false, 0), go0 (rand_const 7)).
Proof.
  split; [reflexivity | split; [reflexivity |]].
  apply (toRetryFn_false_skips_delay (RetryStatus500 3)
           (ExponentialDelay conv_amd64 0 Second) (attempt0 0)
           (go0 (rand_const 7)) (go0 (rand_const 7))).
  reflexivity.
Defined.

(** When the decision function returns true, the delay function runs on
    the state the decision function left. *)
Lemma toRetryFn_true_runs_delay
    (shouldRetry : ShouldRetryFn) (delay : DelayFn) (attempt : Attempt)
    (s s1 s2 : GoState) (d : Duration) :
  shouldRetry attempt s = (Ret true, s1) ->
  delay attempt s1 = (Ret d, s2) ->
  toRetryFn shouldRetry delay attempt s = (Ret (true, d), s2).
Proof.
  intros H1 H2. unfold toRetryFn. rewrite (bind_Ret _ _ _ _ _ H1). simpl.
  rewrite (bind_Ret _ _ _ _ _ H2). reflexivity.
Qed.

Lemma RetryAny_empty (attempt : Attempt) (s : GoState) :
  RetryAny [] attempt s = (Ret false, s).
Proof. reflexivity. Qed.

Lemma RetryAll_empty (attempt : Attempt) (s : GoState) :
  RetryAll [] attempt s = (Ret true, s).
Proof. reflexivity. Qed.

(** On decision functions that only read the state, [RetryAll] is the
    conjunction and [RetryAny] the disjunction. *)
Lemma RetryAll_pure (fns : list ShouldRetryFn) (attempt : Attempt) (s : GoState)
    (bs : list bool) :
  Forall2 (fun fn b => fn attempt s = (Ret b, s)) fns bs ->
  RetryAll fns attempt s = (Ret (forallb id bs), s).
Proof.
  induction 1 as [| fn b fns bs Hfn _ IH]; [reflexivity |].
  simpl. rewrite (bind_Ret _ _ _ _ _ Hfn). destruct b; [exact IH | reflexivity].
Qed.

Lemma RetryAny_pure (fns : list ShouldRetryFn) (attempt : Attempt) (s : GoState)
    (bs : list bool) :
  Forall2 (fun fn b => fn attempt s = (Ret b, s)) fns bs ->
  RetryAny fns attempt s = (Ret (existsb id bs), s).
Proof.
  induction 1 as [| fn b fns bs Hfn _ IH]; [reflexivity |].
  simpl. rewrite (bind_Ret _ _ _ _ _ Hfn). destruct b; [reflexivity | exact IH].
Qed.

Lemma RetryStatus500_spec (maxRetries : Z) (attempt : Attempt) (s : GoState) :
  RetryStatus500 maxRetries attempt s
  = (Ret (match Response_ attempt with
          | Some res => (Index attempt <? maxRetries)
                        && (500 <=? StatusCode res) && (StatusCode res <? 600)
          | None => false
          end), s).
Proof.
  unfold RetryStatus500. rewrite !Z.geb_leb.
  destruct (Z.leb_spec maxRetries (Index attempt)),
           (Z.ltb_spec (Index attempt) maxRetries); try lia;
    destruct (Response_ attempt); unfold ret; rewrite ?Z.geb_leb; reflexivity.
Qed.

(** ** Delay functions *)

Example TestNoDelay :
  forall i, NoDelay (attempt0 i) (go0 (rand_const 0)) = (Ret 0, go0 (rand_const 0)).
Proof. reflexivity. Qed.

Example TestConstDelay :
  forall i, ConstDelay (2 * Second) (attempt0 i) (go0 (rand_const 0))
            = (Ret (2 * Second), go0 (rand_const 0)).
Proof. reflexivity. Qed.

Example TestLinearDelay :
  map (fun i => fst (LinearDelay (2 * Second) (attempt0 i) (go0 (rand_const 0))))
      [0; 1; 2; 3; 4]
  = map Ret [2 * Second; 4 * Second; 6 * Second; 8 * Second; 10 * Second].
Proof. reflexivity. Qed.

(** C2: for every base duration and every attempt index [i] from 0 to 4,
    [LinearDelay base] returns the duration [base * (i + 1)] (the product
    of Go's [time.Duration], which is the integer [base * (i + 1)]
    whenever that fits in 64 bits) and leaves the state alone. *)
Theorem LinearDelay_index_0_to_4
    (base : Duration) (attempt : Attempt) (s : GoState) :
  0 <= Index attempt <= 4 ->
  LinearDelay base attempt s = (Ret (mul64 base (Index attempt + 1)), s) /\
  (in_int64 (base * (Index attempt + 1)) ->
   LinearDelay base attempt s = (Ret (base * (Index attempt + 1)), s)).
Proof.
  intros _. unfold LinearDelay, ret, mul64. split; [reflexivity |].
  intros H. rewrite (wrap64_id _ H). reflexivity.
Qed.

Lemma LinearDelay_index_0_to_4_witness :
  LinearDelay (2 * Second) (attempt0 4) (go0 (rand_const 0))
  = (Ret (10 * Second), go0 (rand_const 0)).
Proof.
  destruct (LinearDelay_index_0_to_4 (2 * Second) (attempt0 4) (go0 (rand_const 0)))
    as [_ H]; [vm_compute; split; discriminate |].
  apply H. vm_compute; split; discriminate.
Defined.

(** ** The method predicate and its shared slice *)

Section StringsFacts.

Variable unicode_ToUpper : string -> string.

Ltac unfold_ToUpper := unfold ToUpper.

Local Abbreviation ToUpper := (ToUpper unicode_ToUpper).
Local Abbreviation upper_loop := (upper_loop unicode_ToUpper).
Local Abbreviation RetryHTTPMethods := (RetryHTTPMethods unicode_ToUpper).

Lemma GoState_eta (s : GoState) : {| PRNG := PRNG s; heap := heap s |} = s.
Proof. destruct s; reflexivity. Qed.

Example ToUpper_examples :
  map ToUpper ["get"; "GeT"; "Post"; "PATCH"; ""] = ["GET"; "GET"; "POST"; "PATCH"; ""].
Proof. reflexivity. Qed.

Lemma upper_bytes_no_lower (s : string) :
  hasLower s = false -> upper_bytes s = s.
Proof.
  induction s as [| c s IH]; [reflexivity |]. simpl.
  intros H. apply orb_false_elim in H as [Hc Hs].
  unfold upper_byte. rewrite Hc, (IH Hs). reflexivity.
Qed.

(** On ASCII strings [strings.ToUpper] maps every byte on its own. *)
Lemma ToUpper_ascii (s : string) :
  isASCII s = true -> ToUpper s = upper_bytes s.
Proof.
  intros H. unfold_ToUpper. rewrite H.
  destruct (hasLower s) eqn:Hl; [reflexivity |].
  simpl. symmetry. apply upper_bytes_no_lower, Hl.
Qed.

Lemma slice_get_ok (sl : slice) (i : nat) (s : GoState) (a : list string) (v : string) :
  heap s !! sl_arr sl = Some a ->
  (i < sl_len sl)%nat ->
  a !! (sl_off sl + i)%nat = Some v ->
  slice_get sl i s = (Ret v, s).
Proof.
  intros Ha Hi Hv. unfold slice_get. rewrite Ha.
  destruct (Nat.ltb_spec i (sl_len sl)); [| lia]. rewrite Hv. reflexivity.
Qed.

Lemma slice_set_ok (sl : slice) (i : nat) (v : string) (s : GoState) (a : list string) :
  heap s !! sl_arr sl = Some a ->
  (i < sl_len sl)%nat ->
  (sl_off sl + i < length a)%nat ->
  slice_set sl i v s
  = (Ret tt, {| PRNG := PRNG s;
                heap := <[sl_arr sl := <[(sl_off sl + i)%nat := v]> a]> (heap s) |}).
Proof.
  intros Ha Hi Hl. unfold slice_set. rewrite Ha.
  destruct (Nat.ltb_spec i (sl_len sl)); [| lia].
  destruct (Nat.ltb_spec (sl_off sl + i) (length a)); [| lia].
  reflexivity.
Qed.

(** The loop of the constructor, from index [i] with [n] elements left:
    it returns, and the backing array differs from the old one exactly on
    the indices visited, which hold the upper-cased strings. *)
Lemma upper_loop_spec (sl : slice) (n : nat) :
  forall (i : nat) (s : GoState) (a : list string),
    heap s !! sl_arr sl = Some a ->
    (i + n = sl_len sl)%nat ->
    (sl_off sl + sl_len sl <= length a)%nat ->
    exists a',
      upper_loop sl i n s
      = (Ret tt, {| PRNG := PRNG s; heap := <[sl_arr sl := a']> (heap s) |}) /\
      length a' = length a /\
      forall j,
        a' !! j = if decide (sl_off sl + i <= j < sl_off sl + i + n)%nat
                  then ToUpper <$> a !! j else a !! j.
Proof.
  induction n as [| n IH]; intros i s a Ha Hin Hlen.
  - exists a. split; [| split; [reflexivity |]].
    + simpl. unfold ret. rewrite (insert_id _ _ _ Ha), GoState_eta. reflexivity.
    + intros j. destruct (decide _); [lia | reflexivity].
  - destruct (lookup_lt_is_Some_2 a (sl_off sl + i)%nat) as [v Hv]; [lia |].
    set (a1 := <[(sl_off sl + i)%nat := ToUpper v]> a).
    set (s1 := {| PRNG := PRNG s; heap := <[sl_arr sl := a1]> (heap s) |}).
    destruct (IH (S i) s1 a1) as (a' & Hrun & Hl & Hlk).
    + simpl. apply lookup_insert_eq.
    + lia.
    + unfold a1. rewrite length_insert. exact Hlen.
    + exists a'. split; [| split].
      * simpl.
        rewrite (bind_Ret _ _ _ _ _ (slice_get_ok sl i s a v Ha ltac:(lia) Hv)).
        rewrite (bind_Ret _ _ _ _ _
                   (slice_set_ok sl i (ToUpper v) s a Ha ltac:(lia) ltac:(lia))).
        fold a1. fold s1. rewrite Hrun. simpl. rewrite insert_insert_eq. reflexivity.
      * rewrite Hl. unfold a1. apply length_insert.
      * intros j. rewrite Hlk. unfold a1.
        destruct (decide (j = sl_off sl + i)%nat) as [-> | Hne].
        -- rewrite list_lookup_insert_eq by lia. rewrite Hv. simpl.
           destruct (decide _); [lia |]. destruct (decide _); [reflexivity | lia].
        -- rewrite list_lookup_insert_ne by lia.
           repeat destruct (decide _); try reflexivity; lia.
Qed.

(** The loop of the predicate: it returns, leaves the state alone, and
    finds [curMeth] exactly when one of the elements left to visit is
    [curMeth]. *)
Lemma match_loop_spec (sl : slice) (curMeth : string) (n : nat) :
  forall (i : nat) (s : GoState) (a : list string),
    heap s !! sl_arr sl = Some a ->
    (i + n = sl_len sl)%nat ->
    (sl_off sl + sl_len sl <= length a)%nat ->
    exists b,
      match_loop sl curMeth i n s = (Ret b, s) /\
      (b = true <->
       exists j, (i <= j < i + n)%nat /\ a !! (sl_off sl + j)%nat = Some curMeth).
Proof.
  induction n as [| n IH]; intros i s a Ha Hin Hlen.
  - exists false. split; [reflexivity |]. split; [discriminate |].
    intros (j & Hj & _). lia.
  - destruct (lookup_lt_is_Some_2 a (sl_off sl + i)%nat) as [v Hv]; [lia |].
    simpl.
    rewrite (bind_Ret _ _ _ _ _ (slice_get_ok sl i s a v Ha ltac:(lia) Hv)).
    destruct (String.eqb_spec curMeth v) as [-> | Hne].
    + exists true. split; [reflexivity |]. split; [| reflexivity].
      intros _. exists i. split; [lia | exact Hv].
    + destruct (IH (S i) s a Ha ltac:(lia) Hlen) as (b & Hrun & Hb).
      exists b. split; [exact Hrun |]. rewrite Hb. split.
      * intros (j & Hj & Hlk). exists j. split; [lia | exact Hlk].
      * intros (j & Hj & Hlk). exists j. split; [| exact Hlk].
        destruct (decide (j = i)) as [-> | ?]; [congruence | lia].
Qed.

Lemma slice_elems_lookup (h : gmap loc (list string)) (sl : slice) (a : list string) (j : nat) :
  h !! sl_arr sl = Some a ->
  slice_elems h sl !! j
  = if decide (j < sl_len sl)%nat then a !! (sl_off sl + j)%nat else None.
Proof.
  intros Ha. unfold slice_elems. rewrite Ha.
  destruct (decide _).
  - rewrite lookup_take_lt by lia. apply lookup_drop.
  - apply lookup_take_ge. lia.
Qed.

(** What the constructor does to the heap: the elements of the caller's
    slice are upper-cased in place, and the closure it returns is the
    method test over that shared slice. *)
Lemma RetryHTTPMethods_run (maxRetries : Z) (methods : slice) (s : GoState) :
  slice_ok (heap s) methods ->
  exists (fn : ShouldRetryFn) (s' : GoState),
    RetryHTTPMethods maxRetries methods s = (Ret fn, s') /\
    PRNG s' = PRNG s /\
    slice_ok (heap s') methods /\
    slice_elems (heap s') methods = ToUpper <$> slice_elems (heap s) methods /\
    (forall l, l <> sl_arr methods -> heap s' !! l = heap s !! l) /\
    fn = (fun attempt =>
            if Index attempt >=? maxRetries then ret false
            else match_loop methods (ToUpper (Method (Request_ attempt))) 0
                   (sl_len methods)).
Proof.
  unfold slice_ok. destruct (heap s !! sl_arr methods) as [a |] eqn:Ha; [| tauto].
  intros Hlen.
  destruct (upper_loop_spec methods (sl_len methods) 0 s a Ha ltac:(lia) Hlen)
    as (a' & Hrun & Hl & Hlk).
  eexists. eexists. split; [| split; [| split; [| split; [| split]]]].
  - unfold RetryHTTPMethods. rewrite (bind_Ret _ _ _ _ _ Hrun). reflexivity.
  - reflexivity.
  - simpl. rewrite lookup_insert_eq. lia.
  - apply list_eq. intros j.
    rewrite (slice_elems_lookup _ methods a' j) by (simpl; apply lookup_insert_eq).
    rewrite list_lookup_fmap, (slice_elems_lookup _ methods a j Ha).
    destruct (decide _); [| reflexivity].
    rewrite Hlk. destruct (decide _); [reflexivity | lia].
  - intros l Hl'. simpl. apply lookup_insert_ne. congruence.
  - reflexivity.
Qed.

(** C10: [RetryHTTPMethods] writes into the slice of its caller: when the
    call returns, every element of the slice the caller passed has been
    replaced by its upper-cased form (and nothing else in the heap, nor the
    generator, has changed). *)
Theorem RetryHTTPMethods_mutates_methods
    (maxRetries : Z) (methods : slice) (s : GoState) :
  slice_ok (heap s) methods ->
  exists (fn : ShouldRetryFn) (s' : GoState),
    RetryHTTPMethods maxRetries methods s = (Ret fn, s') /\
    slice_elems (heap s') methods = ToUpper <$> slice_elems (heap s) methods /\
    (forall i m, slice_elems (heap s) methods !! i = Some m ->
                 slice_elems (heap s') methods !! i = Some (ToUpper m)) /\
    (forall l, l <> sl_arr methods -> heap s' !! l = heap s !! l) /\
    PRNG s' = PRNG s.
Proof.
  intros Hok.
  destruct (RetryHTTPMethods_run maxRetries methods s Hok)
    as (fn & s' & Hrun & Hp & _ & He & Hother & _).
  exists fn, s'. repeat split; try assumption.
  intros i m Hi. rewrite He, list_lookup_fmap, Hi. reflexivity.
Qed.

(** C9: the predicate returned by [RetryHTTPMethods n methods], asked in
    any later state in which the array of the methods is as the
    constructor left it, returns false whenever the attempt index is at
    least [n], whatever the method; below [n] it returns true exactly when
    the upper-cased method of the request equals the upper-cased form of
    one of the listed methods (both sides go through [strings.ToUpper]);
    it leaves the state alone. *)
Theorem RetryHTTPMethods_upper_both_sides
    (n : Z) (methods : slice) (s : GoState) :
  slice_ok (heap s) methods ->
  exists (fn : ShouldRetryFn) (s' : GoState),
    RetryHTTPMethods n methods s = (Ret fn, s') /\
    forall (attempt : Attempt) (s2 : GoState),
      heap s2 !! sl_arr methods = heap s' !! sl_arr methods ->
      (n <= Index attempt -> fn attempt s2 = (Ret false, s2)) /\
      (Index attempt < n ->
       exists b : bool,
         fn attempt s2 = (Ret b, s2) /\
         (b = true <->
          exists m, m ∈ slice_elems (heap s) methods /\
                    ToUpper (Method (Request_ attempt)) = ToUpper m)).
Proof.
  intros Hok.
  destruct (RetryHTTPMethods_run n methods s Hok)
    as (fn & s' & Hrun & _ & Hok' & He & _ & ->).
  eexists. exists s'. split; [exact Hrun |]. intros attempt s2 Hs2. split.
  - intros Hge. destruct (Z.geb_spec (Index attempt) n); [reflexivity | lia].
  - intros Hlt. destruct (Z.geb_spec (Index attempt) n); [lia |].
    unfold slice_ok in Hok'.
    destruct (heap s' !! sl_arr methods) as [a' |] eqn:Ha'; [| tauto].
    destruct (match_loop_spec methods (ToUpper (Method (Request_ attempt)))
                (sl_len methods) 0 s2 a' Hs2 ltac:(lia) Hok')
      as (b & Hb & Hiff).
    exists b. split; [exact Hb |]. rewrite Hiff. split.
    + intros (j & Hj & Hlk).
      assert (Hin : slice_elems (heap s') methods !! j
                    = Some (ToUpper (Method (Request_ attempt)))).
      { rewrite (slice_elems_lookup _ methods a' j Ha').
        destruct (decide _); [exact Hlk | lia]. }
      rewrite He, list_lookup_fmap in Hin.
      destruct (slice_elems (heap s) methods !! j) as [m |] eqn:Hm; [| discriminate].
      exists m. split; [eapply list_elem_of_lookup_2; exact Hm |].
      simpl in Hin. congruence.
    + intros (m & Hm & Heq).
      apply list_elem_of_lookup_1 in Hm as [j Hj].
      assert (Hin : slice_elems (heap s') methods !! j
                    = Some (ToUpper (Method (Request_ attempt)))).
      { rewrite He, list_lookup_fmap, Hj. simpl. congruence. }
      rewrite (slice_elems_lookup _ methods a' j Ha') in Hin.
      destruct (decide _); [| discriminate].
      exists j. split; [lia | exact Hin].
Qed.

End StringsFacts.

(** ** The retry loop *)

Section RoundTripFacts.

Variable X : Type.
Variable rt_RoundTrip : Request -> X -> (option Response * option error) * X.
Variable rt_CancelRequest : Request -> X -> X.
Variable sched : phase -> list env_action.

(** Unfolding of the transport's functions. *)
Ltac unfold_cancel := unfold env_step, CancelRequest, delete_reqCh.
Ltac unfold_attempt := unfold issue_attempt.
Ltac unfold_decide := unfold attempt_and_decide.
Ltac unfold_select := unfold select_wait.
Ltac unfold_body := unfold loop_body.
Ltac unfold_enter := unfold RoundTrip, RoundTrip_enter.
Ltac unfold_RoundTrip := unfold RoundTrip.
Ltac unfold_inv := unfold loop_inv, registered.
Ltac unfold_registered := unfold registered.

Local Abbreviation World := (World X).
Local Abbreviation env_step := (env_step X rt_CancelRequest).
Local Abbreviation env_run := (env_run X rt_CancelRequest).
Local Abbreviation CancelRequest := (CancelRequest X rt_CancelRequest).
Local Abbreviation RoundTrip_enter := (RoundTrip_enter X).
Local Abbreviation issue_attempt := (issue_attempt X rt_RoundTrip rt_CancelRequest sched).
Local Abbreviation attempt_and_decide :=
  (attempt_and_decide X rt_RoundTrip rt_CancelRequest sched).
Local Abbreviation select_wait := (select_wait X rt_CancelRequest sched).
Local Abbreviation loop_body := (loop_body X rt_RoundTrip rt_CancelRequest sched).
Local Abbreviation loop := (loop X rt_RoundTrip rt_CancelRequest sched).
Local Abbreviation iterate := (iterate X rt_RoundTrip rt_CancelRequest sched).
Local Abbreviation RoundTrip := (RoundTrip X rt_RoundTrip rt_CancelRequest sched).
Local Abbreviation registered := (registered X).
Local Abbreviation loop_inv := (loop_inv X).

(** *** What the other goroutines can and cannot change *)

Lemma env_step_gs (a : env_action) (w : World) : gs X (env_step a w) = gs X w.
Proof.
  destruct a; [| reflexivity]. unfold_cancel.
  destruct (reqCh X w) as [m |]; simpl; [destruct (m !! _) |]; reflexivity.
Qed.

Lemma env_step_trace (a : env_action) (w : World) :
  trace X (env_step a w) = trace X w.
Proof.
  destruct a; [| reflexivity]. unfold_cancel.
  destruct (reqCh X w) as [m |]; simpl; [destruct (m !! _) |]; reflexivity.
Qed.

Lemma env_step_closed_mono (a : env_action) (w : World) (c : chan) :
  c ∈ closed X w -> c ∈ closed X (env_step a w).
Proof.
  intros Hc. destruct a; simpl; [| set_solver].
  unfold_cancel.
  destruct (reqCh X w) as [m |]; simpl; [destruct (m !! _) |]; simpl; set_solver.
Qed.

Lemma env_run_gs (acts : list env_action) :
  forall w : World, gs X (env_run acts w) = gs X w.
Proof.
  induction acts as [| a acts IH]; intros w; [reflexivity |].
  simpl. rewrite IH. apply env_step_gs.
Qed.

Lemma env_run_trace (acts : list env_action) :
  forall w : World, trace X (env_run acts w) = trace X w.
Proof.
  induction acts as [| a acts IH]; intros w; [reflexivity |].
  simpl. rewrite IH. apply env_step_trace.
Qed.

Lemma env_run_closed_mono (acts : list env_action) (c : chan) :
  forall w : World, c ∈ closed X w -> c ∈ closed X (env_run acts w).
Proof.
  induction acts as [| a acts IH]; intros w Hc; [exact Hc |].
  simpl. apply IH, env_step_closed_mono, Hc.
Qed.

(** *** One attempt *)

Lemma issue_attempt_eq (st : LoopState) (w : World) :
  issue_attempt st w
  = (let w0 := env_run (sched (InFlight (ls_attempt st))) w in
     (fst (fst (rt_RoundTrip (ls_req st) (rt X w0))),
      snd (fst (rt_RoundTrip (ls_req st) (rt X w0))),
      log X (EvRoundTrip (ls_req st))
        (set_rt X (snd (rt_RoundTrip (ls_req st) (rt X w0))) w0))).
Proof.
  unfold_attempt.
  destruct (rt_RoundTrip _ _) as [[res err] x]. reflexivity.
Qed.

Lemma issue_attempt_trace (st : LoopState) (w w' : World) res err :
  issue_attempt st w = (res, err, w') ->
  trace X w' = trace X w ++ [EvRoundTrip (ls_req st)].
Proof.
  rewrite issue_attempt_eq. intros [= _ _ <-]. simpl.
  rewrite env_run_trace. reflexivity.
Qed.

Lemma issue_attempt_gs (st : LoopState) (w w' : World) res err :
  issue_attempt st w = (res, err, w') -> gs X w' = gs X w.
Proof.
  rewrite issue_attempt_eq. intros [= _ _ <-]. simpl. apply env_run_gs.
Qed.

(** *** Reaching an iteration *)

Lemma loop_iterate (k : nat) (t : Transport) :
  forall (st0 st : LoopState) (w0 w1 : World) (n : nat),
    iterate k t st0 w0 = Some (st, w1) ->
    loop (k + n) t st0 w0 = loop n t st w1.
Proof.
  induction k as [| k IH]; intros st0 st w0 w1 n H.
  - injection H as -> ->. reflexivity.
  - simpl in H. simpl.
    destruct (loop_body t st0 w0) as [[o | st'] w']; [discriminate |].
    apply IH, H.
Qed.

Lemma loop_fuel_split (k fuel : nat) :
  (k < fuel)%nat -> exists n, fuel = (k + S n)%nat.
Proof. intros H. exists (fuel - S k)%nat. lia. Qed.

(** *** The body of the request *)

(** C5: when the request has a body, retrying with a body is not
    prevented, and reading the body into the replay buffer fails with an
    error, [RoundTrip] returns that error with a nil response whatever the
    fuel, and the wrapped RoundTripper is never called: its state is
    untouched and the only effect logged is the closing of the body. *)
Theorem RoundTrip_body_read_error
    (fuel : nat) (t : Transport) (req : Request) (w : World)
    (body : ReadCloser) (e : error) :
  Body req = Some body ->
  PreventRetryWithBody t = false ->
  rc_err body = Some e ->
  exists wf : World,
    RoundTrip fuel t req w = (Return None (Some e), wf) /\
    trace X wf = trace X w ++ [EvCloseRequestBody] /\
    attempts_issued (trace X wf) = attempts_issued (trace X w) /\
    rt X wf = rt X w /\
    gs X wf = gs X w.
Proof.
  intros Hb Hp He.
  unfold_enter.
  rewrite Hb, Hp, He. rewrite andb_false_r. simpl.
  eexists. split; [reflexivity |]. simpl.
  destruct (reqCh X w); simpl; repeat split;
    unfold attempts_issued; rewrite ?filter_app; simpl;
    rewrite ?length_app; simpl; try lia; reflexivity.
Qed.

(** C3: for a request with a body on a transport that prevents retrying
    with a body, [RoundTrip] (given fuel for one iteration) issues the
    request as it is, once, and returns the response and error of that
    first attempt.  The retry function of the transport, whatever it is,
    is not run (the package state is untouched), and nothing is drained
    and nothing waited for. *)
Theorem RoundTrip_prevent_retry_with_body
    (fuel : nat) (t : Transport) (req : Request) (w : World) (body : ReadCloser) :
  Body req = Some body ->
  PreventRetryWithBody t = true ->
  exists (st0 : LoopState) (w0 wf : World),
    RoundTrip_enter t req w = (inr st0, w0) /\
    ls_req st0 = req /\ ls_attempt st0 = 0 /\
    RoundTrip (S fuel) t req w
    = (Return (fst (fst (issue_attempt st0 w0))) (snd (fst (issue_attempt st0 w0))), wf) /\
    trace X wf = trace X w ++ [EvRoundTrip req] /\
    attempts_issued (trace X wf) = S (attempts_issued (trace X w)) /\
    gs X wf = gs X w.
Proof.
  intros Hb Hp.
  destruct (RoundTrip_enter t req w) as [o w0] eqn:Henter.
  assert (Hst : o = inr {| ls_attempt := 0; ls_req := req; ls_preventRetry := true;
                           ls_ch := next_chan X w; ls_br := None |} /\
                trace X w0 = trace X w /\ gs X w0 = gs X w).
  { revert Henter. unfold_enter. rewrite Hb, Hp. simpl.
    intros [= <- <-]. destruct (reqCh X w); simpl; auto. }
  destruct Hst as (-> & Htr & Hgs).
  destruct (issue_attempt {| ls_attempt := 0; ls_req := req; ls_preventRetry := true;
                              ls_ch := next_chan X w; ls_br := None |} w0)
    as [[res err] w1] eqn:Hatt.
  eexists. exists w0. exists (delete_reqCh X req w1). split; [reflexivity |].
  split; [reflexivity |]. split; [reflexivity |].
  unfold_RoundTrip. rewrite Henter. simpl. unfold_body. unfold_decide.
  rewrite Hatt. simpl.
  split; [reflexivity |]. simpl.
  rewrite (issue_attempt_trace _ _ _ _ _ Hatt), (issue_attempt_gs _ _ _ _ _ Hatt).
  simpl. rewrite Htr, Hgs. repeat split.
  unfold attempts_issued. rewrite filter_app, length_app. simpl. lia.
Qed.

(** *** Returning without a retry *)

(** C6: when the loop gets to an attempt (after [k] retried ones) and the
    retry function decides not to retry it, [RoundTrip] (given fuel
    beyond [k]) returns the response and the error of that very attempt,
    and the transport does nothing more after the wrapped RoundTripper
    returned them: in particular the body of the response is neither
    drained nor closed. *)
Theorem RoundTrip_no_retry_returns_attempt
    (k fuel : nat) (t : Transport) (req : Request) (w w0 w1 w2 : World)
    (st0 st : LoopState) (res : option Response) (err : option error)
    (delay : Duration) (g : GoState) :
  RoundTrip_enter t req w = (inr st0, w0) ->
  iterate k t st0 w0 = Some (st, w1) ->
  issue_attempt st w1 = (res, err, w2) ->
  retry t {| Index := ls_attempt st; Request_ := ls_req st;
             Response_ := res; Error := err |} (gs X w2) = (Ret (false, delay), g) ->
  (k < fuel)%nat ->
  exists wf : World,
    RoundTrip fuel t req w = (Return res err, wf) /\
    trace X wf = trace X w1 ++ [EvRoundTrip (ls_req st)] /\
    rt X wf = rt X w2 /\
    closed X wf = closed X w2.
Proof.
  intros Henter Hit Hatt Hretry Hfuel.
  destruct (loop_fuel_split k fuel Hfuel) as [n ->].
  unfold_RoundTrip. rewrite Henter, (loop_iterate k t st0 st w0 w1 (S n) Hit).
  simpl. unfold_body. unfold_decide. rewrite Hatt.
  pose proof (issue_attempt_trace _ _ _ _ _ Hatt) as Htr.
  destruct (ls_preventRetry st).
  - eexists. split; [reflexivity |]. simpl. auto.
  - rewrite Hretry. eexists. split; [reflexivity |]. simpl. auto.
Qed.

(** *** Cancellation *)

Lemma registered_ext (a : positive) (ch : chan) (w w' : World) :
  reqCh X w' = reqCh X w -> closed X w' = closed X w ->
  registered a ch w -> registered a ch w'.
Proof. unfold_registered. intros -> ->. tauto. Qed.

Lemma env_step_registered (a : positive) (ch : chan) (act : env_action) (w : World) :
  registered a ch w -> registered a ch (env_step act w).
Proof.
  intros [(m & Hm & Hlk) | Hc].
  - destruct act as [r | c].
    + unfold_cancel. rewrite Hm. simpl.
      destruct (decide (req_addr r = a)) as [-> | Hne].
      * rewrite Hlk. right. simpl. set_solver.
      * left. exists (delete (req_addr r) m).
        destruct (m !! req_addr r); simpl; (split; [reflexivity |]);
          rewrite lookup_delete_ne by congruence; exact Hlk.
    + left. exists m. simpl. auto.
  - right. apply env_step_closed_mono, Hc.
Qed.

Lemma env_step_cancel_closes (a : positive) (ch : chan) (r : Request) (w : World) :
  registered a ch w -> req_addr r = a ->
  ch ∈ closed X (env_step (CallCancelRequest r) w).
Proof.
  intros [(m & Hm & Hlk) | Hc] Hr.
  - unfold_cancel. rewrite Hm, Hr, Hlk. simpl. set_solver.
  - apply env_step_closed_mono, Hc.
Qed.

Lemma env_run_registered (a : positive) (ch : chan) (acts : list env_action) :
  forall w : World, registered a ch w -> registered a ch (env_run acts w).
Proof.
  induction acts as [| act acts IH]; intros w H; [exact H |].
  simpl. apply IH, env_step_registered, H.
Qed.

(** A call of [CancelRequest] for the request closes its channel. *)
Lemma env_run_cancel_closes (a : positive) (ch : chan) (r : Request)
    (acts : list env_action) :
  forall w : World,
    registered a ch w -> req_addr r = a -> In (CallCancelRequest r) acts ->
    ch ∈ closed X (env_run acts w).
Proof.
  induction acts as [| act acts IH]; intros w Hreg Hr Hin; [destruct Hin |].
  simpl. destruct Hin as [-> | Hin].
  - apply env_run_closed_mono, (env_step_cancel_closes a); assumption.
  - apply IH; [apply env_step_registered, Hreg | exact Hr | exact Hin].
Qed.

Lemma env_run_close_closes (c : chan) (acts : list env_action) :
  forall w : World, In (CloseChan c) acts -> c ∈ closed X (env_run acts w).
Proof.
  induction acts as [| act acts IH]; intros w Hin; [destruct Hin |].
  simpl. destruct Hin as [-> | Hin].
  - apply env_run_closed_mono. simpl. set_solver.
  - apply IH, Hin.
Qed.

Lemma RoundTrip_enter_inv (t : Transport) (req : Request) (w w0 : World)
    (st0 : LoopState) :
  RoundTrip_enter t req w = (inr st0, w0) ->
  loop_inv req (next_chan X w) st0 w0.
Proof.
  unfold_enter. unfold make_chan.
  destruct (reqCh X w) as [m |] eqn:Hm; simpl; rewrite ?Hm; simpl.
  all: destruct (Body req) as [body |];
    [destruct (negb _); [destruct (rc_err body); [discriminate |] |] |];
    intros [= <- <-]; (split; [reflexivity |]); (split; [reflexivity |]);
    (split; [reflexivity |]); left; simpl; eexists; (split; [reflexivity |]);
    apply lookup_insert_eq.
Qed.

Lemma issue_attempt_registered (a : positive) (ch : chan) (st : LoopState)
    (w w' : World) res err :
  issue_attempt st w = (res, err, w') ->
  registered a ch w -> registered a ch w'.
Proof.
  rewrite issue_attempt_eq. intros [= _ _ <-] H.
  eapply registered_ext; [| | apply env_run_registered, H]; reflexivity.
Qed.

Lemma attempt_and_decide_inv (req : Request) (ch : chan) (t : Transport)
    (st st' : LoopState) (w w' : World) (delay : Duration) :
  loop_inv req ch st w ->
  attempt_and_decide t st w = (inr (delay, st'), w') ->
  loop_inv req ch st' w' /\ ls_attempt st' = ls_attempt st /\
  attempts_issued (trace X w') = S (attempts_issued (trace X w)).
Proof.
  intros (Ha & Hc & Hch & Hreg). unfold_decide.
  destruct (issue_attempt st w) as [[res err] w1] eqn:Hatt.
  pose proof (issue_attempt_registered _ _ _ _ _ _ _ Hatt Hreg) as Hreg1.
  pose proof (issue_attempt_trace _ _ _ _ _ Hatt) as Htr.
  destruct (ls_preventRetry st); [discriminate |].
  destruct (retry t _ (gs X w1)) as [[[[|] d] | msg |] g]; try discriminate.
  assert (Hcount : forall w2 : World,
            trace X w2 = trace X w1 \/
            (exists b, trace X w2 = trace X w1 ++ [EvDrainClose b]) ->
            attempts_issued (trace X w2) = S (attempts_issued (trace X w))).
  { intros w2 [-> | [b ->]]; rewrite Htr; unfold attempts_issued;
      rewrite ?filter_app, ?length_app; simpl; lia. }
  destruct (ls_br st) as [br |].
  - unfold Reader_Seek, Reader_consumed. simpl.
    intros [= <- <- <-]. simpl.
    split; [| split; [reflexivity |]].
    + repeat split; try assumption.
      destruct res; (eapply registered_ext; [| | exact Hreg1]); reflexivity.
    + apply Hcount. destruct res; simpl; eauto.
  - intros [= <- <- <-].
    split; [| split; [reflexivity |]].
    + repeat split; try assumption.
      destruct res; (eapply registered_ext; [| | exact Hreg1]); reflexivity.
    + apply Hcount. destruct res; simpl; eauto.
Qed.

Lemma select_wait_inv (req : Request) (ch : chan) (st st' : LoopState)
    (w w' : World) (delay : Duration) :
  loop_inv req ch st w ->
  select_wait st delay w = (inr st', w') ->
  loop_inv req ch st' w' /\
  attempts_issued (trace X w') = attempts_issued (trace X w).
Proof.
  intros (Ha & Hc & Hch & Hreg). unfold_select.
  destruct (cancel_fired _ _ _); [discriminate |].
  intros [= <- <-]. simpl. split.
  - repeat split; try assumption.
    apply env_run_registered.
    eapply registered_ext; [| | exact Hreg]; reflexivity.
  - rewrite env_run_trace. simpl. unfold attempts_issued.
    rewrite filter_app, length_app. simpl. lia.
Qed.

Lemma loop_body_inv (req : Request) (ch : chan) (t : Transport)
    (st st' : LoopState) (w w' : World) :
  loop_inv req ch st w ->
  loop_body t st w = (inr st', w') ->
  loop_inv req ch st' w' /\
  attempts_issued (trace X w') = S (attempts_issued (trace X w)).
Proof.
  intros Hinv. unfold_body.
  destruct (attempt_and_decide t st w) as [[o | [delay st1]] w1] eqn:Hdec;
    [discriminate |].
  destruct (attempt_and_decide_inv _ _ _ _ _ _ _ _ Hinv Hdec) as (Hinv1 & _ & Hn).
  intros Hsel.
  destruct (select_wait_inv _ _ _ _ _ _ _ Hinv1 Hsel) as (Hinv2 & Hn2).
  split; [exact Hinv2 | congruence].
Qed.

Lemma iterate_inv (req : Request) (ch : chan) (t : Transport) (k : nat) :
  forall (st0 st : LoopState) (w0 w1 : World),
    loop_inv req ch st0 w0 ->
    iterate k t st0 w0 = Some (st, w1) ->
    loop_inv req ch st w1 /\
    attempts_issued (trace X w1) = (k + attempts_issued (trace X w0))%nat.
Proof.
  induction k as [| k IH]; intros st0 st w0 w1 Hinv Hit.
  - injection Hit as <- <-. auto.
  - simpl in Hit.
    destruct (loop_body t st0 w0) as [[o | st'] w'] eqn:Hbody; [discriminate |].
    destruct (loop_body_inv _ _ _ _ _ _ _ Hinv Hbody) as (Hinv' & Hn).
    destruct (IH _ _ _ _ Hinv' Hit) as (Hinv1 & Hn1).
    split; [exact Hinv1 | lia].
Qed.

Lemma RoundTrip_enter_trace (t : Transport) (req : Request) (w w0 : World)
    (st0 : LoopState) :
  RoundTrip_enter t req w = (inr st0, w0) ->
  attempts_issued (trace X w0) = attempts_issued (trace X w).
Proof.
  unfold_enter. simpl.
  destruct (Body req) as [body |];
    [destruct (negb _); [destruct (rc_err body); [discriminate |] |] |];
    intros [= <- <-]; destruct (reqCh X w); simpl; try reflexivity;
    unfold attempts_issued; rewrite filter_app, length_app; simpl; lia.
Qed.

(** A cancellation that fires during a wait makes one of the two
    cancellation cases of the [select] ready. *)
Lemma cancel_fired_during_wait (req : Request) (ch : chan) (st : LoopState)
    (w : World) (acts : list env_action) :
  loop_inv req ch st w ->
  (exists c, Cancel req = Some c /\ In (CloseChan c) acts) \/
  (exists r, req_addr r = req_addr req /\ In (CallCancelRequest r) acts) ->
  cancel_fired X st (env_run acts w) = true.
Proof.
  intros (Ha & Hc & Hch & Hreg) Hfire. unfold cancel_fired.
  destruct Hfire as [(c & Hcan & Hin) | (r & Hr & Hin)].
  - rewrite Hc, Hcan.
    rewrite (bool_decide_eq_true_2 _ (env_run_close_closes c acts w Hin)).
    reflexivity.
  - rewrite Hch.
    rewrite (bool_decide_eq_true_2 (ch ∈ _)
               (env_run_cancel_closes _ ch r acts w Hreg Hr Hin)).
    apply orb_true_r.
Qed.

(** C4: when the loop, after [k] retried attempts, has decided to retry
    once more and waits, and during that wait the caller closes
    [req.Cancel] or some goroutine calls [CancelRequest] for the request,
    [RoundTrip] (given fuel beyond [k]) returns a nil response and the
    error "net/http: request canceled".  The wait is the last thing it
    does: the wrapped RoundTripper has been called [k + 1] times and is
    not called again, and the request is no longer in [reqCh]. *)
Theorem RoundTrip_cancel_while_waiting
    (k fuel : nat) (t : Transport) (req : Request) (w w0 w1 w2 : World)
    (st0 st st' : LoopState) (delay : Duration) :
  RoundTrip_enter t req w = (inr st0, w0) ->
  iterate k t st0 w0 = Some (st, w1) ->
  attempt_and_decide t st w1 = (inr (delay, st'), w2) ->
  (exists c, Cancel req = Some c /\
             In (CloseChan c) (sched (Waiting (ls_attempt st)))) \/
  (exists r, req_addr r = req_addr req /\
             In (CallCancelRequest r) (sched (Waiting (ls_attempt st)))) ->
  (k < fuel)%nat ->
  exists wf : World,
    RoundTrip fuel t req w = (Return None (Some canceled), wf) /\
    trace X wf = trace X w2 ++ [EvWait delay] /\
    attempts_issued (trace X wf) = (k + 1 + attempts_issued (trace X w))%nat /\
    (forall m, reqCh X wf = Some m -> m !! req_addr req = None).
Proof.
  intros Henter Hit Hdec Hfire Hfuel.
  pose proof (RoundTrip_enter_inv _ _ _ _ _ Henter) as Hinv0.
  destruct (iterate_inv _ _ _ _ _ _ _ _ Hinv0 Hit) as (Hinv1 & Hn1).
  destruct (attempt_and_decide_inv _ _ _ _ _ _ _ _ Hinv1 Hdec) as (Hinv2 & Hidx & Hn2).
  rewrite <- Hidx in Hfire.
  assert (Hinv3 : loop_inv req (next_chan X w) st' (log X (EvWait delay) w2)).
  { destruct Hinv2 as (? & ? & ? & Hreg). repeat split; assumption. }
  pose proof (cancel_fired_during_wait _ _ _ _ _ Hinv3 Hfire) as Hcf.
  destruct (loop_fuel_split k fuel Hfuel) as [n ->].
  unfold_RoundTrip. rewrite Henter, (loop_iterate k t st0 st w0 w1 (S n) Hit).
  simpl. unfold_body. rewrite Hdec. unfold_select. rewrite Hcf.
  eexists. split; [reflexivity |]. simpl. rewrite env_run_trace. simpl.
  split; [reflexivity |]. split.
  - pose proof (RoundTrip_enter_trace _ _ _ _ _ Henter) as Hn0.
    unfold attempts_issued in *. rewrite filter_app, length_app. simpl. lia.
  - intros m. destruct (reqCh X (env_run _ _)) as [m' |]; simpl; [| discriminate].
    intros [= <-]. apply lookup_delete_eq.
Qed.

(** The attempt index of the loop counts its iterations. *)
Lemma iterate_attempt_index (t : Transport) (k : nat) :
  forall (st0 st : LoopState) (w0 w1 : World),
    iterate k t st0 w0 = Some (st, w1) ->
    ls_attempt st0 + Z.of_nat k <= max_int64 ->
    min_int64 <= ls_attempt st0 ->
    ls_attempt st = ls_attempt st0 + Z.of_nat k.
Proof.
  induction k as [| k IH]; intros st0 st w0 w1 Hit Hmax Hmin.
  - injection Hit as <- <-. lia.
  - simpl in Hit. revert Hit. unfold_body.
    destruct (attempt_and_decide t st0 w0) as [[o | [delay st1]] w'] eqn:Hdec;
      [discriminate |].
    assert (Hidx : ls_attempt st1 = ls_attempt st0).
    { revert Hdec. unfold_decide.
      destruct (issue_attempt st0 w0) as [[res err] wa].
      destruct (ls_preventRetry st0); [discriminate |].
      destruct (retry t _ _) as [[[[|] d] | msg |] g]; try discriminate.
      destruct (ls_br st0) as [br |]; simpl; intros [= _ <- _]; reflexivity. }
    unfold_select. destruct (cancel_fired _ _ _); [discriminate |].
    intros Hit.
    assert (Hw : wrap64 (ls_attempt st1 + 1) = ls_attempt st0 + 1).
    { rewrite Hidx. apply wrap64_id. unfold in_int64. lia. }
    apply IH in Hit; simpl in *; rewrite Hw in *; lia.
Qed.

End RoundTripFacts.

(** ** float64 and the exponential delay *)

Lemma digits2_pos_bounds (p : positive) :
  2 ^ (Zpos (digits2_pos p) - 1) <= Zpos p < 2 ^ Zpos (digits2_pos p).
Proof.
  induction p as [p IH | p IH |]; simpl digits2_pos.
  - rewrite Pos2Z.inj_succ.
    replace (Z.succ (Z.pos (digits2_pos p)) - 1) with (Z.succ (Z.pos (digits2_pos p) - 1)) by lia.
    rewrite !Z.pow_succ_r by lia. lia.
  - rewrite Pos2Z.inj_succ.
    replace (Z.succ (Z.pos (digits2_pos p)) - 1) with (Z.succ (Z.pos (digits2_pos p) - 1)) by lia.
    rewrite !Z.pow_succ_r by lia. lia.
  - simpl. lia.
Qed.

Lemma digits2_pos_iter_xO (k p : positive) :
  digits2_pos (Pos.iter xO p k) = (digits2_pos p + k)%positive.
Proof.
  induction k as [| k IH] using Pos.peano_ind.
  - simpl. lia.
  - rewrite Pos.iter_succ. simpl. rewrite IH. lia.
Qed.

Lemma Pos_iter_xO_value (k p : positive) :
  Zpos (Pos.iter xO p k) = Zpos p * 2 ^ Zpos k.
Proof.
  induction k as [| k IH] using Pos.peano_ind.
  - simpl. lia.
  - rewrite Pos.iter_succ, Pos2Z.inj_xO, IH, Pos2Z.inj_succ, Z.pow_succ_r by lia. lia.
Qed.

(** A mantissa of 53 bits with an exponent above the subnormals needs no rounding. *)
Lemma binary_round_aux_canonical (s : bool) (m : positive) (e : Z) :
  digits2_pos m = 53%positive -> -1074 <= e ->
  binary_round_aux prec emax s (Zpos m) e loc_Exact
  = if e <=? 971 then S754_finite s m e else S754_infinity s.
Proof.
  intros Hd He.
  assert (Hshift : fexp prec emax (Zdigits2 (Zpos m) + e) - e = 0).
  { unfold fexp, emin, prec, emax. simpl Zdigits2. rewrite Hd. lia. }
  unfold binary_round_aux, shr_fexp. simpl Zdigits2 in *. rewrite Hshift. simpl.
  rewrite Hshift. simpl. reflexivity.
Qed.

Lemma float64_of_int_exact (z : Z) :
  0 < z < 2 ^ 53 ->
  exists (m : positive) (e : Z),
    float64_of_int z = S754_finite false m e /\
    digits2_pos m = 53%positive /\ -52 <= e <= 0 /\
    Zpos m = z * 2 ^ (- e).
Proof.
  intros Hz. destruct z as [| p | p]; try lia.
  pose proof (digits2_pos_bounds p) as Hb.
  assert (Hd : Zpos (digits2_pos p) <= 53).
  { destruct (Z.le_gt_cases (Zpos (digits2_pos p)) 53) as [H | H]; [exact H |].
    assert (2 ^ 53 <= 2 ^ (Zpos (digits2_pos p) - 1)) by (apply Z.pow_le_mono_r; lia).
    lia. }
  unfold float64_of_int, binary_normalize, binary_round, shl_align.
  assert (Hf : fexp prec emax (Zpos (digits2_pos p) + 0) = Zpos (digits2_pos p) - 53).
  { unfold fexp, emin, prec, emax. lia. }
  rewrite Hf.
  destruct (Zpos (digits2_pos p) - 53 - 0) as [| k | k] eqn:Hk; try lia.
  - assert (Hd53 : digits2_pos p = 53%positive) by (clear - Hk; lia).
    exists p, 0. rewrite (binary_round_aux_canonical _ _ _ Hd53) by lia.
    simpl. repeat split; try lia.
  - assert (Hd53 : digits2_pos (Pos.iter xO p k) = 53%positive).
    { rewrite digits2_pos_iter_xO. clear - Hk. lia. }
    exists (Pos.iter xO p k), (Zpos (digits2_pos p) - 53).
    rewrite (binary_round_aux_canonical _ _ _ Hd53) by (clear - Hd; lia).
    destruct (Z.leb_spec (Zpos (digits2_pos p) - 53) 971); [| clear - Hd H; lia].
    split; [reflexivity |]. split; [exact Hd53 |]. split; [clear - Hd Hk; lia |].
    rewrite Pos_iter_xO_value. f_equal. f_equal. clear - Hk. lia.
Qed.

Lemma float_trunc_exact (m : positive) (e v : Z) :
  e <= 0 -> Zpos m = v * 2 ^ (- e) ->
  float_trunc (S754_finite false m e) = v.
Proof.
  intros He Hm. unfold float_trunc. simpl cond_Zopp.
  destruct e as [| p | p]; [change (2 ^ (- 0)) with 1 in Hm; lia | lia |].
  rewrite Hm. change (- Zneg p) with (Zpos p).
  apply Z.div_mul. apply Z.pow_nonzero; lia.
Qed.

Lemma float_trunc_float64_of_int (z : Z) :
  0 <= z < 2 ^ 53 -> float_trunc (float64_of_int z) = z.
Proof.
  intros Hz. destruct (Z.eq_dec z 0) as [-> | Hne]; [reflexivity |].
  destruct (float64_of_int_exact z) as (m & e & -> & _ & He & Hm); [lia |].
  apply float_trunc_exact; [lia | exact Hm].
Qed.

Lemma SFone_eq : SFone prec emax = S754_finite false 4503599627370496 (-52).
Proof. reflexivity. Qed.

(** [Ldexp(1, n)] is [2^n], and [+Inf] from [2^1024] on. *)
Lemma SFldexp_one (n : Z) :
  0 <= n ->
  SFldexp prec emax (SFone prec emax) n
  = if n <=? 1023 then S754_finite false 4503599627370496 (n - 52)
    else S754_infinity false.
Proof.
  intros Hn. rewrite SFone_eq. unfold SFldexp, binary_round, shl_align.
  assert (Hf : fexp prec emax (Zpos (digits2_pos 4503599627370496) + (-52 + n))
               - (-52 + n) = 0).
  { unfold fexp, emin, prec, emax. simpl digits2_pos. lia. }
  rewrite Hf. rewrite binary_round_aux_canonical; [| reflexivity | lia].
  replace (-52 + n) with (n - 52) by lia.
  destruct (Z.leb_spec (n - 52) 971), (Z.leb_spec n 1023); try lia; reflexivity.
Qed.

Lemma digits2_pos_unique (m : positive) (d : positive) :
  2 ^ (Zpos d - 1) <= Zpos m < 2 ^ Zpos d -> digits2_pos m = d.
Proof.
  intros H. pose proof (digits2_pos_bounds m) as Hb.
  destruct (Z.lt_trichotomy (Zpos (digits2_pos m)) (Zpos d)) as [Hlt | [Heq | Hgt]].
  - assert (2 ^ Zpos (digits2_pos m) <= 2 ^ (Zpos d - 1))
      by (apply Z.pow_le_mono_r; lia).
    lia.
  - congruence.
  - assert (2 ^ Zpos d <= 2 ^ (Zpos (digits2_pos m) - 1))
      by (apply Z.pow_le_mono_r; lia).
    lia.
Qed.

Lemma iter_pos_nat {A} (f : A -> A) (p : positive) :
  forall x, SpecFloat.iter_pos f p x = Nat.iter (Pos.to_nat p) f x.
Proof.
  induction p as [p IH | p IH |]; intros x; simpl SpecFloat.iter_pos.
  - rewrite !IH, Pos2Nat.inj_xI.
    replace (S (2 * Pos.to_nat p)) with (Pos.to_nat p + (Pos.to_nat p + 1))%nat by lia.
    rewrite !Nat.iter_add. reflexivity.
  - rewrite !IH, Pos2Nat.inj_xO.
    replace (2 * Pos.to_nat p)%nat with (Pos.to_nat p + Pos.to_nat p)%nat by lia.
    rewrite Nat.iter_add. reflexivity.
  - reflexivity.
Qed.

Lemma shr_1_m (r : shr_record) :
  0 <= shr_m r -> shr_m (shr_1 r) = shr_m r / 2.
Proof.
  destruct r as [m b c]. simpl shr_m. intros Hm.
  destruct m as [| [p | p |] | p]; try lia; simpl shr_m.
  - reflexivity.
  - apply Z.div_unique with 1; lia.
  - apply Z.div_unique with 0; lia.
  - reflexivity.
Qed.

Lemma shr_m_iter (n : nat) :
  forall r, 0 <= shr_m r ->
    shr_m (Nat.iter n shr_1 r) = shr_m r / 2 ^ Z.of_nat n.
Proof.
  induction n as [| n IH]; intros r Hr.
  - simpl. rewrite Z.div_1_r. reflexivity.
  - simpl Nat.iter. rewrite shr_1_m.
    + rewrite IH by exact Hr. rewrite Nat2Z.inj_succ, Z.pow_succ_r by lia.
      rewrite Z.div_div by (try apply Z.pow_pos_nonneg; lia).
      f_equal. lia.
    + rewrite IH by exact Hr. apply Z.div_pos; [exact Hr |].
      apply Z.pow_pos_nonneg; lia.
Qed.

Lemma round_nearest_even_bounds (m : Z) (l : location) :
  m <= round_nearest_even m l <= m + 1.
Proof.
  unfold round_nearest_even. destruct l as [| []]; try lia.
  destruct (Z.even m); lia.
Qed.

(** An integer from [2^53] up to the largest [int64] becomes a float of
    at least [2^53]. *)
Lemma float64_of_int_large (z : Z) :
  2 ^ 53 <= z <= max_int64 ->
  exists (m : positive) (e : Z),
    float64_of_int z = S754_finite false m e /\ 1 <= e /\ 2 ^ 52 <= Zpos m.
Proof.
  unfold max_int64. intros Hz. destruct z as [| p | p]; try lia.
  pose proof (digits2_pos_bounds p) as Hb.
  set (d := digits2_pos p) in *.
  assert (Hd : 54 <= Zpos d <= 63).
  { split.
    - destruct (Z.le_gt_cases 54 (Zpos d)) as [H | H]; [exact H |].
      assert (2 ^ Zpos d <= 2 ^ 53) by (apply Z.pow_le_mono_r; lia). lia.
    - destruct (Z.le_gt_cases (Zpos d) 63) as [H | H]; [exact H |].
      assert (2 ^ 63 <= 2 ^ (Zpos d - 1)) by (apply Z.pow_le_mono_r; lia). lia. }
  unfold float64_of_int, binary_normalize, binary_round, shl_align.
  fold d.
  assert (Hf : fexp prec emax (Zpos d + 0) = Zpos d - 53).
  { unfold fexp, emin, prec, emax. lia. }
  rewrite Hf.
  destruct (Zpos d - 53 - 0) as [| k | k] eqn:Hk; try lia.
  unfold binary_round_aux, shr_fexp.
  change (Zdigits2 (Zpos p)) with (Zpos d).
  replace (fexp prec emax (Zpos d + 0) - 0) with (Zpos k) by lia.
  change (shr (shr_record_of_loc (Z.pos p) loc_Exact) 0 (Z.pos k))
    with (SpecFloat.iter_pos shr_1 k
            {| shr_m := Zpos p; shr_r := false; shr_s := false |}, 0 + Zpos k).
  set (r1 := SpecFloat.iter_pos shr_1 k
               {| shr_m := Zpos p; shr_r := false; shr_s := false |}).
  cbv beta iota.
  assert (Hm1 : 2 ^ 52 <= shr_m r1 < 2 ^ 53).
  { unfold r1. rewrite iter_pos_nat, shr_m_iter by (simpl; lia). simpl shr_m.
    rewrite positive_nat_Z.
    assert (Hpk : 0 < 2 ^ Zpos k) by (apply Z.pow_pos_nonneg; lia).
    assert (Hsplit1 : 2 ^ (Zpos d - 1) = 2 ^ 52 * 2 ^ Zpos k).
    { rewrite <- Z.pow_add_r by lia. f_equal. lia. }
    assert (Hsplit2 : 2 ^ Zpos d = 2 ^ 53 * 2 ^ Zpos k).
    { rewrite <- Z.pow_add_r by lia. f_equal. lia. }
    split.
    - apply Z.div_le_lower_bound; [exact Hpk |]. lia.
    - apply Z.div_lt_upper_bound; [exact Hpk |]. lia. }
  pose proof (round_nearest_even_bounds (shr_m r1) (loc_of_shr_record r1)) as Hr.
  set (m2 := round_nearest_even (shr_m r1) (loc_of_shr_record r1)) in *.
  change (2 ^ 52) with 4503599627370496 in *.
  change (2 ^ 53) with 9007199254740992 in *.
  destruct m2 as [| q | q] eqn:Hm2; try lia.
  destruct (Z.eq_dec (Zpos q) 9007199254740992) as [Heq | Hne].
  - injection Heq as ->. exists 4503599627370496%positive, (0 + Zpos k + 1).
    split; [| split; [lia | reflexivity]].
    assert (Hf2 : fexp prec emax (Zdigits2 9007199254740992 + (0 + Zpos k)) - (0 + Zpos k) = 1).
    { unfold fexp, emin, prec, emax. simpl Zdigits2. lia. }
    rewrite Hf2. simpl.
    match goal with
    | |- context [?a <=? ?b] =>
        replace (a <=? b) with true
          by (symmetry; apply Z.leb_le; unfold emax, prec; clear - Hd Hk; lia)
    end.
    reflexivity.
  - assert (Hdq : digits2_pos q = 53%positive).
    { apply digits2_pos_unique. change (2 ^ (53 - 1)) with 4503599627370496.
      change (2 ^ 53) with 9007199254740992. lia. }
    exists q, (0 + Zpos k). split; [| split; [lia | clear - Hm1 Hr; lia]].
    assert (Hf2 : fexp prec emax (Zdigits2 (Zpos q) + (0 + Zpos k)) - (0 + Zpos k) = 0).
    { unfold fexp, emin, prec, emax. simpl Zdigits2. rewrite Hdq. lia. }
    rewrite Hf2. simpl.
    match goal with
    | |- context [?a <=? ?b] =>
        replace (a <=? b) with true
          by (symmetry; apply Z.leb_le; unfold emax, prec; clear - Hd Hk; lia)
    end.
    reflexivity.
Qed.

(** An integer from [2^53] up to the largest [int64] becomes a float with
    a 53-bit mantissa and a value from [2^53] to [2^63]. *)
Lemma float64_of_int_large_canonical (z : Z) :
  2 ^ 53 <= z <= max_int64 ->
  exists (m : positive) (e : Z),
    float64_of_int z = S754_finite false m e /\
    digits2_pos m = 53%positive /\ 1 <= e <= 11 /\
    2 ^ 53 <= Zpos m * 2 ^ e <= 2 ^ 63.
Proof.
  unfold max_int64. intros Hz. destruct z as [| p | p]; try lia.
  pose proof (digits2_pos_bounds p) as Hb.
  set (d := digits2_pos p) in *.
  assert (Hd : 54 <= Zpos d <= 63).
  { split.
    - destruct (Z.le_gt_cases 54 (Zpos d)) as [H | H]; [exact H |].
      assert (2 ^ Zpos d <= 2 ^ 53) by (apply Z.pow_le_mono_r; lia). lia.
    - destruct (Z.le_gt_cases (Zpos d) 63) as [H | H]; [exact H |].
      assert (2 ^ 63 <= 2 ^ (Zpos d - 1)) by (apply Z.pow_le_mono_r; lia). lia. }
  unfold float64_of_int, binary_normalize, binary_round, shl_align.
  fold d.
  assert (Hf : fexp prec emax (Zpos d + 0) = Zpos d - 53).
  { unfold fexp, emin, prec, emax. lia. }
  rewrite Hf.
  destruct (Zpos d - 53 - 0) as [| k | k] eqn:Hk; try lia.
  assert (Hk10 : 1 <= Zpos k <= 10) by (clear - Hd Hk; lia).
  assert (Hpk : 2 ^ 1 <= 2 ^ Zpos k <= 2 ^ 10)
    by (split; apply Z.pow_le_mono_r; lia).
  unfold binary_round_aux, shr_fexp.
  change (Zdigits2 (Zpos p)) with (Zpos d).
  replace (fexp prec emax (Zpos d + 0) - 0) with (Zpos k) by lia.
  change (shr (shr_record_of_loc (Z.pos p) loc_Exact) 0 (Z.pos k))
    with (SpecFloat.iter_pos shr_1 k
            {| shr_m := Zpos p; shr_r := false; shr_s := false |}, 0 + Zpos k).
  set (r1 := SpecFloat.iter_pos shr_1 k
               {| shr_m := Zpos p; shr_r := false; shr_s := false |}).
  cbv beta iota.
  assert (Hm1 : 2 ^ 52 <= shr_m r1 < 2 ^ 53).
  { unfold r1. rewrite iter_pos_nat, shr_m_iter by (simpl; lia). simpl shr_m.
    rewrite positive_nat_Z.
    assert (Hpk0 : 0 < 2 ^ Zpos k) by (apply Z.pow_pos_nonneg; lia).
    assert (Hsplit1 : 2 ^ (Zpos d - 1) = 2 ^ 52 * 2 ^ Zpos k).
    { rewrite <- Z.pow_add_r by lia. f_equal. lia. }
    assert (Hsplit2 : 2 ^ Zpos d = 2 ^ 53 * 2 ^ Zpos k).
    { rewrite <- Z.pow_add_r by lia. f_equal. lia. }
    split.
    - apply Z.div_le_lower_bound; [exact Hpk0 |]. lia.
    - apply Z.div_lt_upper_bound; [exact Hpk0 |]. lia. }
  pose proof (round_nearest_even_bounds (shr_m r1) (loc_of_shr_record r1)) as Hr.
  set (m2 := round_nearest_even (shr_m r1) (loc_of_shr_record r1)) in *.
  change (2 ^ 52) with 4503599627370496 in *.
  change (2 ^ 53) with 9007199254740992 in *.
  change (2 ^ 63) with 9223372036854775808 in *.
  change (2 ^ 1) with 2 in *. change (2 ^ 10) with 1024 in *.
  destruct m2 as [| q | q] eqn:Hm2; try lia.
  destruct (Z.eq_dec (Zpos q) 9007199254740992) as [Heq | Hne].
  - injection Heq as ->. exists 4503599627370496%positive, (0 + Zpos k + 1).
    split; [| split; [reflexivity | split; [lia |]]].
    + assert (Hf2 : fexp prec emax (Zdigits2 9007199254740992 + (0 + Zpos k)) - (0 + Zpos k) = 1).
      { unfold fexp, emin, prec, emax. simpl Zdigits2. lia. }
      rewrite Hf2. simpl.
      match goal with
      | |- context [?a <=? ?b] =>
          replace (a <=? b) with true
            by (symmetry; apply Z.leb_le; unfold emax, prec; clear - Hd Hk; lia)
      end.
      reflexivity.
    + replace (0 + Zpos k + 1) with (Z.succ (Zpos k)) by lia.
      rewrite Z.pow_succ_r by lia. clear - Hpk. lia.
  - assert (Hdq : digits2_pos q = 53%positive).
    { apply digits2_pos_unique. change (2 ^ (53 - 1)) with 4503599627370496.
      change (2 ^ 53) with 9007199254740992. lia. }
    exists q, (0 + Zpos k). split; [| split; [exact Hdq | split; [lia |]]].
    + assert (Hf2 : fexp prec emax (Zdigits2 (Zpos q) + (0 + Zpos k)) - (0 + Zpos k) = 0).
      { unfold fexp, emin, prec, emax. simpl Zdigits2. rewrite Hdq. lia. }
      rewrite Hf2. simpl.
      match goal with
      | |- context [?a <=? ?b] =>
          replace (a <=? b) with true
            by (symmetry; apply Z.leb_le; unfold emax, prec; clear - Hd Hk; lia)
      end.
      reflexivity.
    + rewrite Z.add_0_l.
      assert (Hq : 4503599627370496 <= Zpos q <= 9007199254740991)
        by (clear - Hm1 Hr Hne; lia).
      clear - Hq Hpk. generalize dependent (2 ^ Z.pos k). intros P HP.
      split.
      * apply Z.le_trans with (4503599627370496 * 2); [lia |].
        apply Z.mul_le_mono_nonneg; lia.
      * apply Z.le_trans with (9007199254740991 * 1024); [| lia].
        apply Z.mul_le_mono_nonneg; lia.
Qed.

(** [math.Pow(2, float64(i))] for an attempt index: [2^i] up to [2^1023],
    [+Inf] beyond. *)
Lemma math_Pow2_index (i : Z) :
  0 <= i <= max_int64 ->
  math_Pow2 (float64_of_int i)
  = if i <=? 1023 then S754_finite false 4503599627370496 (i - 52)
    else S754_infinity false.
Proof.
  intros Hi. destruct (Z.lt_ge_cases i (2 ^ 53)) as [Hsmall | Hlarge].
  - assert (Ht := float_trunc_float64_of_int i ltac:(lia)).
    assert (Hpow : math_Pow2 (float64_of_int i)
                   = SFldexp prec emax (SFone prec emax) i).
    { unfold math_Pow2. rewrite Ht.
      destruct (Z.ltb_spec i (-1100)); [lia |].
      destruct (Z.eq_dec i 0) as [-> | Hne]; [reflexivity |].
      destruct (float64_of_int_exact i) as (m & e & -> & _); [lia |]. reflexivity. }
    rewrite Hpow. apply SFldexp_one. lia.
  - destruct (float64_of_int_large i ltac:(lia)) as (m & e & -> & He & Hm).
    assert (Ht : 2 ^ 53 <= float_trunc (S754_finite false m e)).
    { unfold float_trunc. simpl cond_Zopp. destruct e as [| pe | pe]; try lia.
      assert (2 ^ 1 <= 2 ^ Zpos pe) by (apply Z.pow_le_mono_r; lia).
      change (2 ^ 53) with (2 ^ 52 * 2 ^ 1). apply Z.mul_le_mono_nonneg; lia. }
    change (2 ^ 53) with 9007199254740992 in *.
    unfold math_Pow2.
    destruct (Z.ltb_spec (float_trunc (S754_finite false m e)) (-1100)); [lia |].
    rewrite SFldexp_one by lia.
    destruct (Z.leb_spec (float_trunc (S754_finite false m e)) 1023); [lia |].
    destruct (Z.leb_spec i 1023); [lia | reflexivity].
Qed.

Lemma shr_52_exact (mb : positive) :
  SpecFloat.iter_pos shr_1 52
    {| shr_m := Zpos (Pos.iter xO mb 52); shr_r := false; shr_s := false |}
  = {| shr_m := Zpos mb; shr_r := false; shr_s := false |}.
Proof. reflexivity. Qed.

Lemma mul_pow2_52 (mb : positive) :
  (mb * 4503599627370496)%positive = Pos.iter xO mb 52.
Proof.
  apply Pos2Z.inj. rewrite Pos_iter_xO_value, Pos2Z.inj_mul. reflexivity.
Qed.

Lemma binary_round_aux_shifted (s : bool) (mb : positive) (e : Z) :
  digits2_pos mb = 53%positive -> -1074 <= e + 52 ->
  binary_round_aux prec emax s (Zpos (Pos.iter xO mb 52)) e loc_Exact
  = if e + 52 <=? 971 then S754_finite s mb (e + 52) else S754_infinity s.
Proof.
  intros Hd He.
  assert (Hdig : Zpos (digits2_pos (Pos.iter xO mb 52)) = 105).
  { rewrite digits2_pos_iter_xO, Hd. reflexivity. }
  assert (Hf : fexp prec emax (105 + e) - e = 52).
  { unfold fexp, emin, prec, emax. lia. }
  assert (Hf2 : fexp prec emax (Zpos (digits2_pos mb) + (e + 52)) - (e + 52) = 0).
  { rewrite Hd. unfold fexp, emin, prec, emax. lia. }
  unfold binary_round_aux, shr_fexp.
  change (Zdigits2 (Z.pos (Pos.iter xO mb 52)))
    with (Z.pos (digits2_pos (Pos.iter xO mb 52))).
  rewrite Hdig, Hf.
  change (shr (shr_record_of_loc (Z.pos (Pos.iter xO mb 52)) loc_Exact) e 52)
    with (SpecFloat.iter_pos shr_1 52
            {| shr_m := Zpos (Pos.iter xO mb 52); shr_r := false; shr_s := false |},
          e + 52).
  rewrite shr_52_exact.
  simpl loc_of_shr_record. simpl shr_m. simpl round_nearest_even.
  simpl Zdigits2. rewrite Hf2. simpl. reflexivity.
Qed.

Lemma SFmul_pow2 (mb : positive) (eb n : Z) :
  digits2_pos mb = 53%positive -> -52 <= eb -> 0 <= n ->
  SFmul prec emax (S754_finite false mb eb)
    (S754_finite false 4503599627370496 (n - 52))
  = if eb + n <=? 971 then S754_finite false mb (eb + n) else S754_infinity false.
Proof.
  intros Hd Heb Hn. unfold SFmul. simpl xorb. rewrite mul_pow2_52.
  rewrite (binary_round_aux_shifted _ _ _ Hd) by lia.
  replace (eb + (n - 52) + 52) with (eb + n) by lia. reflexivity.
Qed.

Lemma digits53_bounds (m : positive) :
  digits2_pos m = 53%positive -> 2 ^ 52 <= Zpos m < 2 ^ 53.
Proof.
  intros Hd. pose proof (digits2_pos_bounds m) as H. rewrite Hd in H. exact H.
Qed.

(** Comparison of two positive floats with 53-bit mantissas is the
    comparison of their values, here scaled by [2^52]. *)
Lemma SFltb_canonical (m1 m2 : positive) (e1 e2 : Z) :
  digits2_pos m1 = 53%positive -> digits2_pos m2 = 53%positive ->
  -52 <= e1 -> -52 <= e2 ->
  SFltb (S754_finite false m1 e1) (S754_finite false m2 e2)
  = (Zpos m1 * 2 ^ (e1 + 52) <? Zpos m2 * 2 ^ (e2 + 52)).
Proof.
  intros H1 H2 He1 He2.
  apply digits53_bounds in H1, H2.
  change (2 ^ 52) with 4503599627370496 in *.
  change (2 ^ 53) with 9007199254740992 in *.
  unfold SFltb, SFcompare.
  destruct (Z.compare_spec e1 e2) as [-> | Hlt | Hgt].
  - assert (0 < 2 ^ (e2 + 52)) by (apply Z.pow_pos_nonneg; lia).
    change (Pos.compare_cont Eq m1 m2) with (Zpos m1 ?= Zpos m2).
    destruct (Z.compare_spec (Zpos m1) (Zpos m2)) as [Heq | Hl | Hg];
      symmetry; [apply Z.ltb_ge | apply Z.ltb_lt | apply Z.ltb_ge]; nia.
  - assert (0 < 2 ^ (e1 + 52)) by (apply Z.pow_pos_nonneg; lia).
    assert (2 * 2 ^ (e1 + 52) <= 2 ^ (e2 + 52)).
    { rewrite <- Z.pow_succ_r by lia. apply Z.pow_le_mono_r; lia. }
    symmetry. apply Z.ltb_lt. nia.
  - assert (0 < 2 ^ (e2 + 52)) by (apply Z.pow_pos_nonneg; lia).
    assert (2 * 2 ^ (e2 + 52) <= 2 ^ (e1 + 52)).
    { rewrite <- Z.pow_succ_r by lia. apply Z.pow_le_mono_r; lia. }
    symmetry. apply Z.ltb_ge. nia.
Qed.

Section DelayFacts.

Variable conv : float64 -> Z.

(** On durations that [float64] holds exactly, the bound handed to the
    generator is the exact [min(max, base * 2^index)]. *)
Lemma exp_bound_exact (base max index : Z) :
  0 < base < 2 ^ 53 -> 0 < max < 2 ^ 53 -> 0 <= index <= max_int64 ->
  exp_bound conv base max index = Z.min max (base * 2 ^ index).
Proof.
  intros Hb Hm Hi.
  destruct (float64_of_int_exact base Hb) as (mb & eb & Hfb & Hdb & Heb & Hvb).
  destruct (float64_of_int_exact max Hm) as (mm & em & Hfm & Hdm & Hem & Hvm).
  assert (Hmaxf : int64_of_float64 conv (S754_finite false mm em) = max).
  { unfold int64_of_float64. rewrite (float_trunc_exact mm em max) by (lia || exact Hvm).
    unfold min_int64, max_int64.
    destruct (Z.leb_spec (- 2 ^ 63) max), (Z.leb_spec max (2 ^ 63 - 1)); try lia.
    reflexivity. }
  assert (Hpi : 0 < 2 ^ index) by (apply Z.pow_pos_nonneg; lia).
  assert (Hinf : 53 <= index -> Z.min max (base * 2 ^ index) = max).
  { intros H53. assert (2 ^ 53 <= 2 ^ index) by (apply Z.pow_le_mono_r; lia).
    apply Z.min_l. nia. }
  assert (Hmin_inf : math_Min (S754_finite false mm em) (S754_infinity false)
                     = S754_finite false mm em) by reflexivity.
  unfold exp_bound, exp_top. rewrite Hfb, Hfm, (math_Pow2_index index Hi).
  destruct (Z.leb_spec index 1023) as [Hsmall | Hbig].
  2: { simpl SFmul. rewrite Hmin_inf, Hmaxf, Hinf by lia. reflexivity. }
  rewrite (SFmul_pow2 mb eb index Hdb) by lia.
  destruct (Z.leb_spec (eb + index) 971) as [Hfin | Hover].
  2: { rewrite Hmin_inf, Hmaxf, Hinf by lia. reflexivity. }
  assert (Hlt : math_Min (S754_finite false mm em) (S754_finite false mb (eb + index))
                = if max <? base * 2 ^ index then S754_finite false mm em
                  else S754_finite false mb (eb + index)).
  { unfold math_Min. simpl is_neg_inf. simpl is_nan. simpl is_zero. simpl orb. simpl andb.
    rewrite (SFltb_canonical mm mb em (eb + index) Hdm Hdb) by lia.
    rewrite Hvm, Hvb.
    replace (max * 2 ^ (- em) * 2 ^ (em + 52)) with (max * 2 ^ 52).
    2: { rewrite <- Z.mul_assoc, <- Z.pow_add_r by lia. f_equal. f_equal. lia. }
    replace (base * 2 ^ (- eb) * 2 ^ (eb + index + 52)) with (base * 2 ^ index * 2 ^ 52).
    2: { rewrite <- !Z.mul_assoc, <- !Z.pow_add_r by lia. f_equal. f_equal. lia. }
    destruct (Z.ltb_spec max (base * 2 ^ index)),
             (Z.ltb_spec (max * 2 ^ 52) (base * 2 ^ index * 2 ^ 52));
      try reflexivity; lia. }
  rewrite Hlt.
  destruct (Z.ltb_spec max (base * 2 ^ index)) as [Hcap | Hnocap].
  - rewrite Hmaxf. symmetry. apply Z.min_l. lia.
  - rewrite Z.min_r by lia.
    assert (He : eb + index <= 0).
    { destruct (Z.le_gt_cases (eb + index) 0) as [H | H]; [exact H |].
      pose proof (digits53_bounds mb Hdb) as Hmb.
      assert (2 * 2 ^ (- eb) <= 2 ^ index).
      { rewrite <- Z.pow_succ_r by lia. apply Z.pow_le_mono_r; lia. }
      change (2 ^ 52) with 4503599627370496 in *.
      change (2 ^ 53) with 9007199254740992 in *. nia. }
    unfold int64_of_float64.
    rewrite (float_trunc_exact mb (eb + index) (base * 2 ^ index) He).
    + unfold min_int64, max_int64.
      destruct (Z.leb_spec (- 2 ^ 63) (base * 2 ^ index)),
               (Z.leb_spec (base * 2 ^ index) (2 ^ 63 - 1)); try lia.
      reflexivity.
    + rewrite Hvb, <- Z.mul_assoc, <- Z.pow_add_r by lia. f_equal. f_equal. lia.
Qed.

(** Under a cap of [2^53] ns or more, the bound is the exact
    [base * 2^index] as long as that is below [2^53]. *)
Lemma exp_bound_large_cap (base max index : Z) :
  0 < base < 2 ^ 53 -> 2 ^ 53 <= max <= max_int64 -> 0 <= index <= max_int64 ->
  base * 2 ^ index < 2 ^ 53 ->
  exp_bound conv base max index = base * 2 ^ index.
Proof.
  intros Hb Hm Hi Htop.
  destruct (float64_of_int_exact base Hb) as (mb & eb & Hfb & Hdb & Heb & Hvb).
  destruct (float64_of_int_large_canonical max Hm) as (mm & em & Hfm & Hdm & Hem & Hvm).
  assert (Hpi : 0 < 2 ^ index) by (apply Z.pow_pos_nonneg; lia).
  assert (Hi52 : index <= 52).
  { destruct (Z.le_gt_cases index 52) as [H | H]; [exact H |].
    assert (2 ^ 53 <= 2 ^ index) by (apply Z.pow_le_mono_r; lia). nia. }
  pose proof (digits53_bounds mb Hdb) as Hmb.
  pose proof (digits53_bounds mm Hdm) as Hmm.
  assert (Hval : Zpos mb * 2 ^ (eb + index + 52) = base * 2 ^ index * 2 ^ 52).
  { rewrite Hvb, <- !Z.mul_assoc, <- !Z.pow_add_r by lia. f_equal. f_equal. lia. }
  assert (He : eb + index <= 0).
  { destruct (Z.le_gt_cases (eb + index) 0) as [H | H]; [exact H |].
    assert (2 * 2 ^ 52 <= 2 ^ (eb + index + 52)).
    { rewrite <- Z.pow_succ_r by lia. apply Z.pow_le_mono_r; lia. }
    change (2 ^ 52) with 4503599627370496 in *.
    change (2 ^ 53) with 9007199254740992 in *. nia. }
  unfold exp_bound, exp_top. rewrite Hfb, Hfm, (math_Pow2_index index Hi).
  destruct (Z.leb_spec index 1023) as [_ | Hbig]; [| lia].
  rewrite (SFmul_pow2 mb eb index Hdb) by lia.
  destruct (Z.leb_spec (eb + index) 971) as [_ | Hover]; [| lia].
  assert (Hmin : math_Min (S754_finite false mm em) (S754_finite false mb (eb + index))
                 = S754_finite false mb (eb + index)).
  { unfold math_Min. simpl is_neg_inf. simpl is_nan. simpl is_zero. simpl orb. simpl andb.
    rewrite (SFltb_canonical mm mb em (eb + index) Hdm Hdb) by lia.
    rewrite Hval.
    assert (2 ^ 53 <= 2 ^ (em + 52)) by (apply Z.pow_le_mono_r; lia).
    change (2 ^ 52) with 4503599627370496 in *.
    change (2 ^ 53) with 9007199254740992 in *.
    destruct (Z.ltb_spec (Zpos mm * 2 ^ (em + 52))
                (base * 2 ^ index * 4503599627370496)); [nia | reflexivity]. }
  rewrite Hmin. unfold int64_of_float64.
  rewrite (float_trunc_exact mb (eb + index) (base * 2 ^ index) He).
  - unfold min_int64, max_int64.
    change (2 ^ 53) with 9007199254740992 in *.
    destruct (Z.leb_spec (- 2 ^ 63) (base * 2 ^ index)),
             (Z.leb_spec (base * 2 ^ index) (2 ^ 63 - 1)); try lia.
    reflexivity.
  - rewrite Hvb, <- Z.mul_assoc, <- Z.pow_add_r by lia. f_equal. f_equal. lia.
Qed.

(** A base of [2^53] ns or more is above every cap below [2^53], however
    [float64] rounds it: the bound is the cap. *)
Lemma exp_bound_large_base (base max index : Z) :
  2 ^ 53 <= base <= max_int64 -> 0 < max < 2 ^ 53 -> 0 <= index <= max_int64 ->
  exp_bound conv base max index = max.
Proof.
  intros Hb Hm Hi.
  destruct (float64_of_int_large_canonical base Hb) as (mb & eb & Hfb & Hdb & Heb & _).
  destruct (float64_of_int_exact max Hm) as (mm & em & Hfm & Hdm & Hem & Hvm).
  assert (Hmaxf : int64_of_float64 conv (S754_finite false mm em) = max).
  { unfold int64_of_float64. rewrite (float_trunc_exact mm em max) by (lia || exact Hvm).
    unfold min_int64, max_int64.
    destruct (Z.leb_spec (- 2 ^ 63) max), (Z.leb_spec max (2 ^ 63 - 1)); try lia.
    reflexivity. }
  assert (Hmin_inf : math_Min (S754_finite false mm em) (S754_infinity false)
                     = S754_finite false mm em) by reflexivity.
  unfold exp_bound, exp_top. rewrite Hfb, Hfm, (math_Pow2_index index Hi).
  destruct (Z.leb_spec index 1023) as [Hsmall | Hbig].
  2: { simpl SFmul. rewrite Hmin_inf. exact Hmaxf. }
  rewrite (SFmul_pow2 mb eb index Hdb) by lia.
  destruct (Z.leb_spec (eb + index) 971) as [Hfin | Hover].
  2: { rewrite Hmin_inf. exact Hmaxf. }
  assert (Hlt : math_Min (S754_finite false mm em) (S754_finite false mb (eb + index))
                = S754_finite false mm em).
  { unfold math_Min. simpl is_neg_inf. simpl is_nan. simpl is_zero. simpl orb. simpl andb.
    rewrite (SFltb_canonical mm mb em (eb + index) Hdm Hdb) by lia.
    pose proof (digits53_bounds mb Hdb) as Hmb.
    assert (Hl : Zpos mm * 2 ^ (em + 52) = max * 2 ^ 52).
    { rewrite Hvm, <- Z.mul_assoc, <- Z.pow_add_r by lia. f_equal. f_equal. lia. }
    assert (Hr : 2 ^ 53 <= 2 ^ (eb + index + 52)) by (apply Z.pow_le_mono_r; lia).
    rewrite Hl.
    change (2 ^ 52) with 4503599627370496 in *.
    change (2 ^ 53) with 9007199254740992 in *.
    destruct (Z.ltb_spec (max * 4503599627370496) (Zpos mb * 2 ^ (eb + index + 52)));
      [reflexivity | nia]. }
  rewrite Hlt. exact Hmaxf.
Qed.

(** Whenever [min(max, base * 2^index)] is below [2^53], the bound handed
    to the generator is that minimum. *)
Lemma exp_bound_min (base max index : Z) :
  0 < base <= max_int64 -> 0 < max <= max_int64 -> 0 <= index <= max_int64 ->
  Z.min max (base * 2 ^ index) < 2 ^ 53 ->
  exp_bound conv base max index = Z.min max (base * 2 ^ index).
Proof.
  intros Hb Hm Hi Hmin.
  assert (Hpi : 1 <= 2 ^ index) by (apply (Z.pow_le_mono_r 2 0 index); lia).
  destruct (Z.lt_ge_cases base (2 ^ 53)) as [Hbs | Hbl].
  - destruct (Z.lt_ge_cases max (2 ^ 53)) as [Hsmall | Hlarge].
    + apply exp_bound_exact; [lia | lia | exact Hi].
    + rewrite Z.min_r in * by lia.
      apply exp_bound_large_cap; [lia | lia | exact Hi | exact Hmin].
  - assert (Hle : max <= base * 2 ^ index /\ max < 2 ^ 53).
    { destruct (Z.min_spec max (base * 2 ^ index)) as [[H1 H2] | [H1 H2]];
        rewrite H2 in Hmin; [lia | nia]. }
    rewrite Z.min_l by lia.
    apply exp_bound_large_base; [lia | lia | exact Hi].
Qed.

(** Whenever the bound is positive, the delay is drawn below it and one
    value of the generator is consumed. *)
Lemma ExponentialDelay_below_bound (base max : Duration) (attempt : Attempt)
    (s : GoState) :
  0 < exp_bound conv base max (Index attempt) ->
  exists v s',
    ExponentialDelay conv base max attempt s = (Ret v, s') /\
    0 <= v < exp_bound conv base max (Index attempt) /\
    rand_pos (PRNG s') = S (rand_pos (PRNG s)).
Proof.
  intros Hpos. unfold ExponentialDelay, Int63n.
  fold (exp_top base (Index attempt)). fold (exp_bound conv base max (Index attempt)).
  destruct (Z.leb_spec (exp_bound conv base max (Index attempt)) 0); [lia |].
  eexists. eexists. split; [reflexivity |]. split; [| reflexivity].
  apply Z.mod_pos_bound. exact Hpos.
Qed.

(** Whenever the bound is zero or negative, the delay function panics. *)
Lemma ExponentialDelay_panics_without_bound (base max : Duration)
    (attempt : Attempt) (s : GoState) :
  exp_bound conv base max (Index attempt) <= 0 ->
  ExponentialDelay conv base max attempt s
  = (Panic "invalid argument to Int63n", s).
Proof.
  intros Hneg. unfold ExponentialDelay, Int63n.
  fold (exp_top base (Index attempt)). fold (exp_bound conv base max (Index attempt)).
  destruct (Z.leb_spec (exp_bound conv base max (Index attempt)) 0); [reflexivity | lia].
Qed.

(** C1: with a zero base and a cap of one second, the minimum of the cap
    and [base * 2^0] is 0, and the delay function does not return 0: the
    call [PRNG.Int63n(0)] panics, whatever the state of the generator and
    whatever the platform's float conversion. *)
Theorem ExponentialDelay_zero_base_panics (s : GoState) :
  exp_bound conv 0 Second 0 = 0 /\
  ExponentialDelay conv 0 Second (attempt0 0) s
  = (Panic "invalid argument to Int63n", s).
Proof. split; reflexivity. Qed.

(** C8 (amended): for a positive base, a positive cap (both up to the
    largest [time.Duration]) and an attempt index from 0 on (up to the
    largest [int]) such that [min(max, base * 2^index)] is below [2^53],
    the delay function returns, and the delay lies in the half-open
    interval from 0 to [min(max, base * 2^index)]. *)
Theorem ExponentialDelay_in_range (base max : Duration) (attempt : Attempt)
    (s : GoState) :
  0 < base <= max_int64 -> 0 < max <= max_int64 ->
  0 <= Index attempt <= max_int64 ->
  Z.min max (base * 2 ^ Index attempt) < 2 ^ 53 ->
  exists v s',
    ExponentialDelay conv base max attempt s = (Ret v, s') /\
    0 <= v < Z.min max (base * 2 ^ Index attempt).
Proof.
  intros Hb Hm Hi Hmin.
  pose proof (exp_bound_min base max (Index attempt) Hb Hm Hi Hmin) as Hbound.
  assert (Hpos : 0 < exp_bound conv base max (Index attempt)).
  { rewrite Hbound. assert (0 < 2 ^ Index attempt) by (apply Z.pow_pos_nonneg; lia).
    apply Z.min_glb_lt; nia. }
  destruct (ExponentialDelay_below_bound base max attempt s Hpos)
    as (v & s' & Hrun & Hv & _).
  exists v, s'. split; [exact Hrun |]. rewrite <- Hbound. exact Hv.
Qed.

End DelayFacts.

(** ** The properties on concrete runs *)

Example TestRetryHTTPMethods :
  [ try_RetryHTTPMethods 1 [] "GET" 0;
    try_RetryHTTPMethods 0 [] "GET" 1;
    try_RetryHTTPMethods 1 ["get"] "GET" 0;
    try_RetryHTTPMethods 1 ["GET"] "GET" 0;
    try_RetryHTTPMethods 1 ["GET"] "POST" 0;
    try_RetryHTTPMethods 2 ["GET"; "POST"] "POST" 0;
    try_RetryHTTPMethods 2 ["GET"; "POST"] "POST" 1;
    try_RetryHTTPMethods 2 ["GET"; "POST"] "POST" 2;
    try_RetryHTTPMethods 2 ["GET"; "POST"] "put" 0;
    try_RetryHTTPMethods 2 ["GET"; "POST"; "PUT"] "put" 0 ]
  = map Ret [false; false; true; true; false; true; true; false; false; true].
Proof. vm_compute. reflexivity. Qed.

Lemma RetryHTTPMethods_mutates_methods_witness :
  exists (fn : ShouldRetryFn) (s' : GoState),
    RetryHTTPMethods no_unicode 3
      {| sl_arr := 1%positive; sl_off := 1; sl_len := 2 |}
      (methods_heap ["head"; "get"; "Post"; "put"]) = (Ret fn, s') /\
    heap s' !! 1%positive = Some ["head"; "GET"; "POST"; "put"].
Proof.
  destruct (RetryHTTPMethods_mutates_methods no_unicode 3
              {| sl_arr := 1%positive; sl_off := 1; sl_len := 2 |}
              (methods_heap ["head"; "get"; "Post"; "put"]))
    as (fn & s' & Hrun & _).
  - vm_compute. lia.
  - exists fn, s'. split; [exact Hrun |].
    vm_compute in Hrun. injection Hrun as _ <-. reflexivity.
Defined.

Lemma RetryHTTPMethods_upper_both_sides_witness :
  exists (fn : ShouldRetryFn) (s' : GoState),
    RetryHTTPMethods no_unicode 2 (all_of ["get"; "Post"])
      (methods_heap ["get"; "Post"]) = (Ret fn, s') /\
    fn (method_attempt 2 "post") s' = (Ret false, s') /\
    fn (method_attempt 1 "post") s' = (Ret true, s').
Proof.
  destruct (RetryHTTPMethods_upper_both_sides no_unicode 2 (all_of ["get"; "Post"])
              (methods_heap ["get"; "Post"]))
    as (fn & s' & Hrun & Hfn).
  - vm_compute. lia.
  - exists fn, s'. split; [exact Hrun |].
    destruct (Hfn (method_attempt 2 "post") s' eq_refl) as [Hge _].
    destruct (Hfn (method_attempt 1 "post") s' eq_refl) as [_ Hlt].
    split; [apply Hge; vm_compute; discriminate |].
    destruct Hlt as (b & Hb & Hiff); [reflexivity |].
    rewrite Hb. replace b with true; [reflexivity |].
    symmetry. apply Hiff. exists "Post"%string.
    split; [vm_compute; apply list_elem_of_In; simpl; tauto | reflexivity].
Defined.

Lemma RoundTrip_body_read_error_witness :
  exists wf : World nat,
    RoundTrip nat rt_503_then_200 rt_ignore_cancel quiet 0 retry_5xx
      (post_request {| rc_data := "partial"; rc_err := Some read_failed |}) world0
    = (Return None (Some read_failed), wf) /\
    rt nat wf = O.
Proof.
  destruct (RoundTrip_body_read_error nat rt_503_then_200 rt_ignore_cancel quiet
              0 retry_5xx
              (post_request {| rc_data := "partial"; rc_err := Some read_failed |})
              world0 {| rc_data := "partial"; rc_err := Some read_failed |}
              read_failed)
    as (wf & Hrun & _ & _ & Hrt & _); [reflexivity | reflexivity | reflexivity |].
  exists wf. split; [exact Hrun | exact Hrt].
Defined.

Lemma RoundTrip_prevent_retry_with_body_witness :
  exists wf : World nat,
    RoundTrip nat rt_503_then_200 rt_ignore_cancel quiet 1 always_retry_no_body
      (post_request {| rc_data := "payload"; rc_err := None |}) world0
    = (Return (Some res503) None, wf) /\
    attempts_issued (trace nat wf) = 1%nat.
Proof.
  destruct (RoundTrip_prevent_retry_with_body nat rt_503_then_200 rt_ignore_cancel
              quiet 0 always_retry_no_body
              (post_request {| rc_data := "payload"; rc_err := None |})
              world0 {| rc_data := "payload"; rc_err := None |})
    as (st0 & w0 & wf & Henter & _ & _ & Hrun & _ & Hn & _);
    [reflexivity | reflexivity |].
  exists wf. split; [| exact Hn].
  rewrite Hrun. injection Henter as <- <-. reflexivity.
Defined.

Lemma RoundTrip_no_retry_returns_attempt_witness :
  exists wf : World nat,
    RoundTrip nat rt_503_then_200 rt_ignore_cancel quiet 5 retry_5xx
      (get_request 1 "GET") world0
    = (Return (Some res200) None, wf) /\
    trace nat wf
    = [EvRoundTrip (get_request 1 "GET"); EvDrainClose 10%positive;
       EvWait Second; EvRoundTrip (get_request 1 "GET")].
Proof.
  edestruct (RoundTrip_no_retry_returns_attempt nat rt_503_then_200
               rt_ignore_cancel quiet 1 5 retry_5xx (get_request 1 "GET") world0)
    as (wf & Hrun & Htr & _);
    [reflexivity | reflexivity | reflexivity | reflexivity | lia |].
  exists wf. split; [exact Hrun | exact Htr].
Defined.

Lemma RoundTrip_cancel_while_waiting_witness :
  exists wf : World nat,
    RoundTrip nat rt_503_then_200 rt_ignore_cancel
      (cancel_in_first_wait (get_request 1 "GET")) 5 retry_5xx
      (get_request 1 "GET") world0
    = (Return None (Some canceled), wf) /\
    attempts_issued (trace nat wf) = 1%nat.
Proof.
  edestruct (RoundTrip_cancel_while_waiting nat rt_503_then_200 rt_ignore_cancel
               (cancel_in_first_wait (get_request 1 "GET")) 0 5 retry_5xx
               (get_request 1 "GET") world0)
    as (wf & Hrun & _ & Hn & _);
    [reflexivity | reflexivity | reflexivity
    | right; exists (get_request 1 "GET"); split; [reflexivity | left; reflexivity]
    | lia |].
  exists wf. split; [exact Hrun | exact Hn].
Defined.

(** C8, as stated, fails: a base of [2^55 + 5] ns is rounded up to
    [2^55 + 8] by [float64(base)], so with a cap above it the generator is
    asked for a value below [2^55 + 8] and may hand out [2^55 + 7], which
    is more than [min(max, base * 2^0) = base]. *)
Lemma ExponentialDelay_in_range_counterexample :
  ~ (forall (conv : float64 -> Z) (base max : Duration) (attempt : Attempt)
            (s s' : GoState) (v : Duration),
        0 < Z.min max (base * 2 ^ Index attempt) ->
        ExponentialDelay conv base max attempt s = (Ret v, s') ->
        0 <= v < Z.min max (base * 2 ^ Index attempt)).
Proof.
  intros H.
  specialize (H conv_amd64 (2 ^ 55 + 5) (2 ^ 62) (attempt0 0)
                (go0 (rand_const (2 ^ 55 + 7)))
                {| PRNG := {| rand_src := fun _ => 2 ^ 55 + 7; rand_pos := 1 |};
                   heap := ∅ |}
                (2 ^ 55 + 7)).
  assert (Hmin : Z.min (2 ^ 62) ((2 ^ 55 + 5) * 2 ^ Index (attempt0 0)) = 2 ^ 55 + 5)
    by reflexivity.
  rewrite Hmin in H. destruct H as [_ H]; [reflexivity | reflexivity | lia].
Qed.

Lemma ExponentialDelay_in_range_witness :
  exists v s',
    ExponentialDelay conv_amd64 Second (2 ^ 62) (attempt0 3)
      (go0 (rand_const 123456789012)) = (Ret v, s') /\
    0 <= v < 8 * Second.
Proof.
  apply (ExponentialDelay_in_range conv_amd64 Second (2 ^ 62)
           (attempt0 3) (go0 (rand_const 123456789012)));
    vm_compute; try split; congruence.
Defined.

(** The caller closes [req.Cancel] during the first wait. *)
Example RoundTrip_caller_cancel :
  fst (RoundTrip nat rt_always_503 rt_ignore_cancel (close_in_first_wait 100%positive) 9
         retry_5xx (post_request {| rc_data := "payload"; rc_err := None |}) world0)
  = Return None (Some canceled) /\
  attempts_issued
    (trace nat (snd (RoundTrip nat rt_always_503 rt_ignore_cancel
                       (close_in_first_wait 100%positive) 9 retry_5xx
                       (post_request {| rc_data := "payload"; rc_err := None |})
                       world0))) = 1%nat.
Proof. split; reflexivity. Qed.

(** [CancelRequest] during the second wait: two attempts, no third. *)
Example RoundTrip_cancel_second_wait :
  let run := RoundTrip nat rt_always_503 rt_ignore_cancel
               (cancel_in_second_wait (get_request 1 "GET")) 9 retry_5xx
               (get_request 1 "GET") world0 in
  fst run = Return None (Some canceled) /\
  trace nat (snd run)
  = [EvRoundTrip (get_request 1 "GET"); EvDrainClose 10%positive; EvWait Second;
     EvRoundTrip (get_request 1 "GET"); EvDrainClose 10%positive; EvWait Second].
Proof. split; reflexivity. Qed.

(** Without a cancellation, [RetryStatus500 3] gives up after the fourth
    503 and hands it to the caller undrained. *)
Example RoundTrip_gives_up :
  let run := RoundTrip nat rt_always_503 rt_ignore_cancel quiet 9 retry_5xx
               (get_request 1 "GET") world0 in
  fst run = Return (Some res503) None /\
  attempts_issued (trace nat (snd run)) = 4%nat /\
  last (trace nat (snd run)) = Some (EvRoundTrip (get_request 1 "GET")).
Proof. repeat split; reflexivity. Qed.

(** The policy [RetryAll(RetryStatus500(3), RetryHTTPMethods(3, "get"))]:
    a 503 on a GET is retried, the 200 that follows is returned, after two
    attempts in total. *)
Example RoundTrip_5xx_get_scenario :
  match retry_5xx_get (methods_heap ["get"]) with
  | (Ret t, s) =>
      let run := RoundTrip nat rt_503_then_200 rt_ignore_cancel quiet 9 t
                   (get_request 1 "GET")
                   {| gs := s; rt := O; reqCh := None; closed := ∅;
                      next_chan := 1%positive; trace := [] |} in
      fst run = Return (Some res200) None /\
      attempts_issued (trace nat (snd run)) = 2%nat
  | _ => False
  end.
Proof. vm_compute. split; reflexivity. Qed.

(** * Further properties *)

(** ** More on the decision functions *)

(** X1: [RetryAny] stops at the first function that returns true: when
    the functions before it return false (leaving the state alone), the
    result is true with the state that function left, and the functions
    after it are not run, whatever they are. *)
Theorem RetryAny_short_circuit
    (before after : list ShouldRetryFn) (fn : ShouldRetryFn)
    (attempt : Attempt) (s s' : GoState) :
  Forall (fun f => f attempt s = (Ret false, s)) before ->
  fn attempt s = (Ret true, s') ->
  RetryAny (before ++ fn :: after) attempt s = (Ret true, s').
Proof.
  intros Hb Hfn. induction Hb as [| f before Hf _ IH]; simpl.
  - rewrite (bind_Ret _ _ _ _ _ Hfn). reflexivity.
  - rewrite (bind_Ret _ _ _ _ _ Hf). exact IH.
Qed.

(** X2: [RetryAll] stops at the first function that returns false: when
    the functions before it return true (leaving the state alone), the
    result is false with the state that function left, and the functions
    after it are not run, whatever they are. *)
Theorem RetryAll_short_circuit
    (before after : list ShouldRetryFn) (fn : ShouldRetryFn)
    (attempt : Attempt) (s s' : GoState) :
  Forall (fun f => f attempt s = (Ret true, s)) before ->
  fn attempt s = (Ret false, s') ->
  RetryAll (before ++ fn :: after) attempt s = (Ret false, s').
Proof.
  intros Hb Hfn. induction Hb as [| f before Hf _ IH]; simpl.
  - rewrite (bind_Ret _ _ _ _ _ Hfn). reflexivity.
  - rewrite (bind_Ret _ _ _ _ _ Hf). exact IH.
Qed.

Lemma RetryStatus500_stops_at (n : Z) : stops_at n (RetryStatus500 n).
Proof.
  intros attempt s Hn. exists s. unfold RetryStatus500.
  destruct (Z.geb_spec (Index attempt) n); [reflexivity | lia].
Qed.

Lemma RetryTemporaryErr_stops_at (n : Z) : stops_at n (RetryTemporaryErr n).
Proof.
  intros attempt s Hn. exists s. unfold RetryTemporaryErr.
  destruct (Z.geb_spec (Index attempt) n); [reflexivity | lia].
Qed.

(** X3: a [RetryAny] over functions that all refuse every attempt from
    index [n] on, as [RetryTemporaryErr n] and [RetryStatus500 n] do,
    refuses every attempt from index [n] on. *)
Theorem RetryAny_stops_at (n : Z) (fns : list ShouldRetryFn) :
  Forall (stops_at n) fns -> stops_at n (RetryAny fns).
Proof.
  intros H attempt. induction H as [| fn fns Hfn _ IH]; intros s Hn.
  - exists s. reflexivity.
  - destruct (Hfn attempt s Hn) as [s1 H1]. simpl.
    rewrite (bind_Ret _ _ _ _ _ H1). apply IH, Hn.
Qed.

Lemma RetryAll_stops_at (n : Z) (fn : ShouldRetryFn) (fns : list ShouldRetryFn) :
  stops_at n fn -> stops_at n (RetryAll (fn :: fns)).
Proof.
  intros Hfn attempt s Hn. destruct (Hfn attempt s Hn) as [s1 H1].
  exists s1. simpl. rewrite (bind_Ret _ _ _ _ _ H1). reflexivity.
Qed.

Section MethodsMore.

Variable unicode_ToUpper : string -> string.

Ltac unfold_methods := unfold RetryHTTPMethods.
Ltac unfold_ok := unfold slice_ok.
Ltac unfold_elems := unfold slice_elems.

Local Abbreviation ToUpper := (ToUpper unicode_ToUpper).
Local Abbreviation upper_loop := (upper_loop unicode_ToUpper).
Local Abbreviation RetryHTTPMethods := (RetryHTTPMethods unicode_ToUpper).

(** X4: with no methods the predicate never allows a retry, and the
    constructor touches nothing, not even the heap of an unallocated
    (nil) slice. *)
Theorem RetryHTTPMethods_no_methods (n : Z) (methods : slice) (s : GoState) :
  sl_len methods = O ->
  exists fn : ShouldRetryFn,
    RetryHTTPMethods n methods s = (Ret fn, s) /\
    forall (attempt : Attempt) (s2 : GoState), fn attempt s2 = (Ret false, s2).
Proof.
  intros Hlen. unfold_methods. rewrite Hlen. simpl upper_loop.
  eexists. split; [reflexivity |]. intros attempt s2. simpl.
  destruct (Index attempt >=? n); reflexivity.
Qed.

(** X5: the predicate compares the upper-cased method of the request
    with the elements of the slice as they are when it is called: what
    the caller stores in the slice after the construction is compared as
    it is, without upper-casing. *)
Theorem RetryHTTPMethods_reads_shared_slice
    (n : Z) (methods : slice) (s : GoState) :
  slice_ok (heap s) methods ->
  exists (fn : ShouldRetryFn) (s' : GoState),
    RetryHTTPMethods n methods s = (Ret fn, s') /\
    forall (attempt : Attempt) (s2 : GoState),
      slice_ok (heap s2) methods ->
      Index attempt < n ->
      exists b : bool,
        fn attempt s2 = (Ret b, s2) /\
        (b = true <->
         ToUpper (Method (Request_ attempt)) ∈ slice_elems (heap s2) methods).
Proof.
  intros Hok.
  destruct (RetryHTTPMethods_run unicode_ToUpper n methods s Hok)
    as (fn & s' & Hrun & _ & _ & _ & _ & ->).
  eexists. exists s'. split; [exact Hrun |]. intros attempt s2 Hok2 Hlt.
  cbv beta. destruct (Z.geb_spec (Index attempt) n); [lia |].
  revert Hok2. unfold_ok.
  destruct (heap s2 !! sl_arr methods) as [a2 |] eqn:Ha2; [| tauto]. intros Hlen.
  destruct (match_loop_spec methods (ToUpper (Method (Request_ attempt)))
              (sl_len methods) 0 s2 a2 Ha2 ltac:(lia) Hlen)
    as (b & Hb & Hiff).
  exists b. split; [exact Hb |]. rewrite Hiff. split.
  - intros (j & Hj & Hlk). apply list_elem_of_lookup. exists j.
    rewrite (slice_elems_lookup _ methods a2 j Ha2).
    destruct (decide _); [exact Hlk | lia].
  - intros Hin. apply list_elem_of_lookup in Hin as [j Hj].
    rewrite (slice_elems_lookup _ methods a2 j Ha2) in Hj.
    destruct (decide _); [| discriminate].
    exists j. split; [lia | exact Hj].
Qed.

(** X6: used alone, the predicate allows a retry of every attempt below
    [n] made with a listed method, successful or not: the response and
    the error of the attempt play no part. *)
Theorem RetryHTTPMethods_retries_any_outcome
    (n : Z) (methods : slice) (s : GoState) (m : string) :
  slice_ok (heap s) methods ->
  m ∈ slice_elems (heap s) methods ->
  exists (fn : ShouldRetryFn) (s' : GoState),
    RetryHTTPMethods n methods s = (Ret fn, s') /\
    forall (i : Z) (req : Request) (res : option Response) (err : option error),
      i < n ->
      ToUpper (Method req) = ToUpper m ->
      fn {| Index := i; Request_ := req; Response_ := res; Error := err |} s'
      = (Ret true, s').
Proof.
  intros Hok Hm.
  destruct (RetryHTTPMethods_run unicode_ToUpper n methods s Hok)
    as (fn & s' & Hrun & _ & Hok' & He & _ & ->).
  eexists. exists s'. split; [exact Hrun |]. intros i req res err Hlt Heq.
  simpl. destruct (Z.geb_spec i n); [lia |].
  revert Hok'. unfold_ok.
  destruct (heap s' !! sl_arr methods) as [a' |] eqn:Ha'; [| tauto]. intros Hlen.
  destruct (match_loop_spec methods (ToUpper (Method req))
              (sl_len methods) 0 s' a' Ha' ltac:(lia) Hlen)
    as (b & Hb & Hiff).
  rewrite Hb. f_equal. f_equal. apply Hiff.
  apply list_elem_of_lookup in Hm as [j Hj].
  assert (Hin : slice_elems (heap s') methods !! j = Some (ToUpper (Method req))).
  { rewrite He, list_lookup_fmap, Hj. simpl. congruence. }
  rewrite (slice_elems_lookup _ methods a' j Ha') in Hin.
  destruct (decide _); [| discriminate].
  exists j. split; [lia | exact Hin].
Qed.

(** X7: when every element of the slice is already its own upper-cased
    form (as "GET" or "POST" are), the constructor leaves the whole
    state, the caller's slice included, as it found it. *)
Theorem RetryHTTPMethods_upper_case_unchanged
    (n : Z) (methods : slice) (s : GoState) :
  slice_ok (heap s) methods ->
  (forall m, m ∈ slice_elems (heap s) methods -> ToUpper m = m) ->
  exists fn : ShouldRetryFn, RetryHTTPMethods n methods s = (Ret fn, s).
Proof.
  unfold_ok. destruct (heap s !! sl_arr methods) as [a |] eqn:Ha; [| tauto].
  intros Hlen Hup.
  destruct (upper_loop_spec unicode_ToUpper methods (sl_len methods) 0 s a Ha
              ltac:(lia) Hlen) as (a' & Hrun & Hl & Hlk).
  assert (Haa : a' = a).
  { apply list_eq. intros j. rewrite Hlk. destruct (decide _) as [Hj |]; [| reflexivity].
    destruct (a !! j) as [m |] eqn:Hm; [| reflexivity]. simpl. f_equal.
    apply Hup. apply list_elem_of_lookup. exists (j - sl_off methods)%nat.
    rewrite (slice_elems_lookup _ methods a _ Ha).
    destruct (decide _); [| lia].
    rewrite <- Hm. f_equal. lia. }
  subst a'. rewrite (insert_id _ _ _ Ha), GoState_eta in Hrun.
  eexists. unfold_methods. rewrite (bind_Ret _ _ _ _ _ Hrun). reflexivity.
Qed.

End MethodsMore.

(** ** More on the retry loop *)

Lemma substring_full (s : string) : String.substring 0 (String.length s) s = s.
Proof. induction s as [| c s IH]; [reflexivity |]. simpl. rewrite IH. reflexivity. Qed.

Lemma NopCloser_rewound (b : string) :
  NopCloser {| rd_s := b; rd_i := 0 |} = {| rc_data := b; rc_err := None |}.
Proof.
  unfold NopCloser. simpl. rewrite Nat.sub_0_r, substring_full. reflexivity.
Qed.

Lemma substring_none (n : nat) (s : string) : String.substring n 0 s = EmptyString.
Proof.
  revert s. induction n as [| n IH]; intros [| c s]; simpl; auto.
Qed.

(** After an attempt nothing is left to read of the buffered body ... *)
Lemma NopCloser_consumed (r : Reader) :
  NopCloser (Reader_consumed r) = {| rc_data := EmptyString; rc_err := None |}.
Proof.
  unfold NopCloser, Reader_consumed. simpl.
  replace (String.length (rd_s r)
           - Z.to_nat (Z.max (rd_i r) (Z.of_nat (String.length (rd_s r)))))%nat
    with O by lia.
  rewrite substring_none. reflexivity.
Qed.

(** ... and [Seek(0, 0)] puts the reader back at its first byte, wherever
    it was. *)
Lemma Reader_Seek_start (r : Reader) :
  Reader_Seek r 0 0 = ({| rd_s := rd_s r; rd_i := 0 |}, None).
Proof. reflexivity. Qed.

Lemma attempts_issued_app (tr1 tr2 : list event) :
  attempts_issued (tr1 ++ tr2) = (attempts_issued tr1 + attempts_issued tr2)%nat.
Proof. unfold attempts_issued. rewrite filter_app, length_app. reflexivity. Qed.

Section RoundTripMore.

Variable X : Type.
Variable rt_RoundTrip : Request -> X -> (option Response * option error) * X.
Variable rt_CancelRequest : Request -> X -> X.
Variable sched : phase -> list env_action.

Ltac unfold_cancel := unfold env_step, CancelRequest, delete_reqCh.
Ltac unfold_attempt := unfold issue_attempt.
Ltac unfold_decide := unfold attempt_and_decide.
Ltac unfold_select := unfold select_wait.
Ltac unfold_body := unfold loop_body.
Ltac unfold_enter := unfold RoundTrip_enter.
Ltac unfold_RoundTrip := unfold RoundTrip.
Ltac unfold_fired := unfold cancel_fired.
Ltac unfold_owned := unfold owned.

Local Abbreviation World := (World X).
Local Abbreviation env_step := (env_step X rt_CancelRequest).
Local Abbreviation env_run := (env_run X rt_CancelRequest).
Local Abbreviation CancelRequest := (CancelRequest X rt_CancelRequest).
Local Abbreviation RoundTrip_enter := (RoundTrip_enter X).
Local Abbreviation issue_attempt := (issue_attempt X rt_RoundTrip rt_CancelRequest sched).
Local Abbreviation attempt_and_decide :=
  (attempt_and_decide X rt_RoundTrip rt_CancelRequest sched).
Local Abbreviation select_wait := (select_wait X rt_CancelRequest sched).
Local Abbreviation loop_body := (loop_body X rt_RoundTrip rt_CancelRequest sched).
Local Abbreviation loop := (loop X rt_RoundTrip rt_CancelRequest sched).
Local Abbreviation iterate := (iterate X rt_RoundTrip rt_CancelRequest sched).
Local Abbreviation RoundTrip := (RoundTrip X rt_RoundTrip rt_CancelRequest sched).

(** An iteration that goes on to the [select]: the attempt, the retry
    function saying yes, the rewind of the buffered body and the drain. *)
Lemma attempt_and_decide_continue (t : Transport) (st st' : LoopState)
    (w w' : World) (delay : Duration) :
  attempt_and_decide t st w = (inr (delay, st'), w') ->
  exists res err w1 g,
    issue_attempt st w = (res, err, w1) /\
    ls_preventRetry st = false /\
    retry t {| Index := ls_attempt st; Request_ := ls_req st;
               Response_ := res; Error := err |} (gs X w1) = (Ret (true, delay), g) /\
    gs X w' = g /\ rt X w' = rt X w1 /\
    reqCh X w' = reqCh X w1 /\ closed X w' = closed X w1 /\
    next_chan X w' = next_chan X w1 /\
    trace X w' = trace X w1 ++ drained res /\
    ls_attempt st' = ls_attempt st /\ ls_ch st' = ls_ch st /\
    ls_preventRetry st' = false /\
    match ls_br st with
    | Some br =>
        ls_br st' = Some {| rd_s := rd_s br; rd_i := 0 |} /\
        ls_req st' = set_Body (Some (NopCloser {| rd_s := rd_s br; rd_i := 0 |}))
                       (ls_req st)
    | None => st' = st
    end.
Proof.
  unfold_decide.
  destruct (issue_attempt st w) as [[res err] w1] eqn:Hatt.
  destruct (ls_preventRetry st) eqn:Hp; [discriminate |].
  destruct (retry t _ (gs X w1)) as [[[[|] d] | msg |] g] eqn:Hr; try discriminate.
  destruct (ls_br st) as [br |] eqn:Hbr.
  - unfold Reader_Seek, Reader_consumed. simpl. intros [= <- <- <-].
    exists res, err, w1, g.
    destruct res; simpl; rewrite ?app_nil_r; repeat split; assumption || reflexivity.
  - intros [= <- <- <-].
    exists res, err, w1, g.
    destruct res; simpl; rewrite ?app_nil_r; repeat split; assumption || reflexivity.
Qed.

(** An iteration that ends [RoundTrip] before the [select]: nothing
    follows the attempt. *)
Lemma attempt_and_decide_stop (t : Transport) (st : LoopState)
    (w w' : World) (o : outcome) :
  attempt_and_decide t st w = (inl o, w') ->
  exists res err w1,
    issue_attempt st w = (res, err, w1) /\
    trace X w' = trace X w1 /\ rt X w' = rt X w1 /\
    reqCh X w' = reqCh X w1 /\ closed X w' = closed X w1.
Proof.
  unfold_decide.
  destruct (issue_attempt st w) as [[res err] w1] eqn:Hatt.
  exists res, err, w1. split; [reflexivity |]. revert H.
  destruct (ls_preventRetry st); [intros [= _ <-]; auto |].
  destruct (retry t _ (gs X w1)) as [[[[|] d] | msg |] g];
    try (intros [= _ <-]; auto).
  destruct (ls_br st) as [br |]; [unfold Reader_Seek, Reader_consumed; simpl |];
    discriminate.
Qed.

Lemma select_wait_effects (st : LoopState) (delay : Duration) (w w' : World)
    (x : outcome + LoopState) :
  select_wait st delay w = (x, w') ->
  w' = env_run (sched (Waiting (ls_attempt st))) (log X (EvWait delay) w) /\
  trace X w' = trace X w ++ [EvWait delay] /\ gs X w' = gs X w /\
  match x with
  | inl o => o = Return None (Some canceled) /\ cancel_fired X st w' = true
  | inr st' =>
      cancel_fired X st w' = false /\
      st' = {| ls_attempt := wrap64 (ls_attempt st + 1); ls_req := ls_req st;
               ls_preventRetry := ls_preventRetry st; ls_ch := ls_ch st;
               ls_br := ls_br st |}
  end.
Proof.
  unfold_select.
  destruct (cancel_fired X st _) eqn:Hc; intros [= <- <-];
    rewrite env_run_trace, env_run_gs; simpl; auto.
Qed.

Lemma loop_body_continue (t : Transport) (st st' : LoopState) (w w' : World) :
  loop_body t st w = (inr st', w') ->
  exists res err w1 delay,
    issue_attempt st w = (res, err, w1) /\
    retry t {| Index := ls_attempt st; Request_ := ls_req st;
               Response_ := res; Error := err |} (gs X w1)
    = (Ret (true, delay), gs X w') /\
    trace X w'
    = trace X w ++ EvRoundTrip (ls_req st) :: drained res ++ [EvWait delay] /\
    ls_attempt st' = wrap64 (ls_attempt st + 1).
Proof.
  unfold_body.
  destruct (attempt_and_decide t st w) as [[o | [delay st1]] w2] eqn:Hdec;
    [discriminate |].
  destruct (attempt_and_decide_continue _ _ _ _ _ _ Hdec)
    as (res & err & w1 & g & Hatt & _ & Hr & Hg & _ & _ & _ & _ & Htr & Hidx & _).
  intros Hsel.
  destruct (select_wait_effects _ _ _ _ _ Hsel) as (_ & Htr2 & Hgs & _ & ->).
  exists res, err, w1, delay. split; [exact Hatt |].
  split; [rewrite Hgs, Hg; exact Hr |]. split.
  - rewrite Htr2, Htr, (issue_attempt_trace _ _ _ _ _ _ _ _ _ Hatt).
    rewrite <- !app_assoc. reflexivity.
  - simpl. rewrite Hidx. reflexivity.
Qed.

(** X9: an iteration that is retried does, in this order: the attempt,
    the retry function (which says yes, with a delay), the drain and close
    of the body of the response if there is one, the wait for that delay;
    the next iteration runs with the attempt index increased by one. *)
Theorem loop_body_retry_order (t : Transport) (st st' : LoopState) (w w' : World) :
  loop_body t st w = (inr st', w') ->
  exists res err w1 delay,
    issue_attempt st w = (res, err, w1) /\
    retry t {| Index := ls_attempt st; Request_ := ls_req st;
               Response_ := res; Error := err |} (gs X w1)
    = (Ret (true, delay), gs X w') /\
    trace X w'
    = trace X w ++ EvRoundTrip (ls_req st) :: drained res ++ [EvWait delay] /\
    ls_attempt st' = wrap64 (ls_attempt st + 1).
Proof. apply loop_body_continue. Qed.

Lemma attempts_issued_drained (res : option Response) :
  attempts_issued (drained res) = O.
Proof. destruct res; reflexivity. Qed.

Lemma RoundTrip_enter_state (t : Transport) (req : Request) (w w0 : World)
    (st0 : LoopState) :
  RoundTrip_enter t req w = (inr st0, w0) ->
  ls_attempt st0 = 0 /\
  ls_ch st0 = next_chan X w /\
  ls_preventRetry st0
  = bool_decide (is_Some (Body req)) && PreventRetryWithBody t /\
  closed X w0 = closed X w /\ gs X w0 = gs X w /\ rt X w0 = rt X w /\
  reqCh X w0 = Some (<[req_addr req := next_chan X w]> (default ∅ (reqCh X w))) /\
  match Body req with
  | Some body =>
      if PreventRetryWithBody t then
        ls_req st0 = req /\ ls_br st0 = None /\ trace X w0 = trace X w
      else
        rc_err body = None /\
        ls_req st0 = set_Body (Some {| rc_data := rc_data body; rc_err := None |}) req /\
        ls_br st0 = Some {| rd_s := rc_data body; rd_i := 0 |} /\
        trace X w0 = trace X w ++ [EvCloseRequestBody]
  | None => ls_req st0 = req /\ ls_br st0 = None /\ trace X w0 = trace X w
  end.
Proof.
  unfold_enter. unfold make_chan.
  destruct (Body req) as [body |] eqn:Hb.
  - destruct (PreventRetryWithBody t) eqn:Hp; simpl.
    + intros [= <- <-]. destruct (reqCh X w); simpl; repeat split; reflexivity.
    + destruct (rc_err body) eqn:He; [discriminate |].
      intros [= <- <-]. unfold bytes_NewReader. rewrite NopCloser_rewound.
      destruct (reqCh X w); simpl; repeat split; reflexivity.
  - simpl. intros [= <- <-]. destruct (reqCh X w); simpl; repeat split; reflexivity.
Qed.

(** X10: after [k] retried iterations of [RoundTrip] the attempt index
    is [k], and exactly [k] calls of the wrapped RoundTripper have been
    made. *)
Theorem iterate_counts_attempts
    (k : nat) (t : Transport) (req : Request) (w w0 w1 : World)
    (st0 st : LoopState) :
  RoundTrip_enter t req w = (inr st0, w0) ->
  iterate k t st0 w0 = Some (st, w1) ->
  Z.of_nat k <= max_int64 ->
  ls_attempt st = Z.of_nat k /\
  attempts_issued (trace X w1) = (k + attempts_issued (trace X w))%nat.
Proof.
  intros Henter Hit Hk.
  destruct (RoundTrip_enter_state _ _ _ _ _ Henter) as (H0 & _).
  split.
  - rewrite (iterate_attempt_index X rt_RoundTrip rt_CancelRequest sched
               t k st0 st w0 w1 Hit); rewrite H0; unfold min_int64; lia.
  - pose proof (RoundTrip_enter_inv X t req w w0 st0 Henter) as Hinv.
    destruct (iterate_inv X rt_RoundTrip rt_CancelRequest sched
                req _ t k st0 st w0 w1 Hinv Hit) as (_ & Hn).
    rewrite Hn, (RoundTrip_enter_trace X t req w w0 st0 Henter). reflexivity.
Qed.

(** X14: a panic of the retry function on some attempt is the outcome of
    [RoundTrip]; nothing is done after that attempt (no drain, no wait),
    and the deferred delete has removed the request from [reqCh]. *)
Theorem RoundTrip_retry_panics
    (k fuel : nat) (t : Transport) (req : Request) (w w0 w1 w2 : World)
    (st0 st : LoopState) (res : option Response) (err : option error)
    (msg : string) (g : GoState) :
  RoundTrip_enter t req w = (inr st0, w0) ->
  iterate k t st0 w0 = Some (st, w1) ->
  issue_attempt st w1 = (res, err, w2) ->
  ls_preventRetry st = false ->
  retry t {| Index := ls_attempt st; Request_ := ls_req st;
             Response_ := res; Error := err |} (gs X w2) = (Panic msg, g) ->
  (k < fuel)%nat ->
  exists wf : World,
    RoundTrip fuel t req w = (Panicked msg, wf) /\
    trace X wf = trace X w2 /\
    (forall m, reqCh X wf = Some m -> m !! req_addr req = None).
Proof.
  intros Henter Hit Hatt Hp Hretry Hfuel.
  destruct (loop_fuel_split k fuel Hfuel) as [n ->].
  unfold_RoundTrip.
  rewrite Henter, (loop_iterate X rt_RoundTrip rt_CancelRequest sched
                     k t st0 st w0 w1 (S n) Hit).
  simpl. unfold_body. unfold_decide. rewrite Hatt, Hp, Hretry.
  eexists. split; [reflexivity |]. split; [reflexivity |].
  intros m. simpl. destruct (reqCh X w2) as [m' |]; simpl; [| discriminate].
  intros [= <-]. apply lookup_delete_eq.
Qed.

Lemma issue_attempt_effects (st : LoopState) (w w1 : World) res err :
  issue_attempt st w = (res, err, w1) ->
  reqCh X w1 = reqCh X (env_run (sched (InFlight (ls_attempt st))) w) /\
  closed X w1 = closed X (env_run (sched (InFlight (ls_attempt st))) w) /\
  trace X w1 = trace X w ++ [EvRoundTrip (ls_req st)].
Proof.
  intros H. pose proof (issue_attempt_trace _ _ _ _ _ _ _ _ _ H) as Htr.
  rewrite issue_attempt_eq in H. injection H as _ _ <-. auto.
Qed.

(** *** The registry *)

Lemma loop_reqCh_quiet (t : Transport) :
  (forall p, sched p = []) ->
  forall (fuel : nat) (st : LoopState) (w wf : World) (o : outcome),
    loop fuel t st w = (o, wf) -> reqCh X wf = reqCh X w.
Proof.
  intros Hq. induction fuel as [| fuel IH]; intros st w wf o.
  - intros [= _ <-]. reflexivity.
  - simpl. unfold_body.
    destruct (attempt_and_decide t st w) as [[o1 | [delay st1]] w2] eqn:Hdec.
    + intros [= _ <-].
      destruct (attempt_and_decide_stop _ _ _ _ _ Hdec)
        as (res & err & w1 & Hatt & _ & _ & Hreg & _).
      destruct (issue_attempt_effects _ _ _ _ _ Hatt) as (Hreg1 & _).
      rewrite Hreg, Hreg1, Hq. reflexivity.
    + destruct (attempt_and_decide_continue _ _ _ _ _ _ Hdec)
        as (res & err & w1 & g & Hatt & _ & _ & _ & _ & Hreg & _).
      destruct (issue_attempt_effects _ _ _ _ _ Hatt) as (Hreg1 & _).
      destruct (select_wait st1 delay w2) as [[o2 | st2] w3] eqn:Hsel;
        destruct (select_wait_effects _ _ _ _ _ Hsel) as (Hw3 & _).
      * intros [= _ <-]. rewrite Hw3, Hq. simpl. rewrite Hreg, Hreg1, Hq. reflexivity.
      * intros Hloop. rewrite (IH _ _ _ _ Hloop), Hw3, Hq. simpl.
        rewrite Hreg, Hreg1, Hq. reflexivity.
Qed.

(** X15: when [RoundTrip] returns or panics, its request is not in
    [reqCh]; and when no other goroutine acts meanwhile, the entries of
    all other requests are as they were before the call. *)
Theorem RoundTrip_registry
    (fuel : nat) (t : Transport) (req : Request) (w wf : World) (o : outcome) :
  RoundTrip fuel t req w = (o, wf) ->
  o <> Diverged ->
  (reqCh X wf ≫= (.!! req_addr req)) = None /\
  ((forall p, sched p = []) ->
   forall a, a <> req_addr req ->
     (reqCh X wf ≫= (.!! a)) = (reqCh X w ≫= (.!! a))).
Proof.
  unfold_RoundTrip.
  destruct (RoundTrip_enter t req w) as [[o0 | st0] w0] eqn:Henter.
  - assert (Hreg0 : reqCh X w0
                    = Some (<[req_addr req := next_chan X w]> (default ∅ (reqCh X w)))).
    { revert Henter. unfold_enter. unfold make_chan.
      destruct (Body req) as [body |]; [| discriminate].
      destruct (negb _); [| discriminate].
      destruct (rc_err body); [| discriminate].
      intros [= _ <-]. destruct (reqCh X w); reflexivity. }
    intros Hrun Hnd.
    assert (Hwf : wf = delete_reqCh X req w0).
    { destruct o0; try congruence; injection Hrun as <- <-; reflexivity. }
    subst wf. simpl. rewrite Hreg0. simpl. split; [apply lookup_delete_eq |].
    intros _ a Ha. rewrite lookup_delete_ne, lookup_insert_ne by congruence.
    destruct (reqCh X w); simpl; [reflexivity | apply lookup_empty].
  - destruct (RoundTrip_enter_state _ _ _ _ _ Henter)
      as (_ & _ & _ & _ & _ & _ & Hreg0 & _).
    destruct (loop fuel t st0 w0) as [o1 w1] eqn:Hloop.
    intros Hrun Hnd.
    assert (Hwf : o = o1 /\ wf = delete_reqCh X req w1).
    { destruct o1; injection Hrun as <- <-; auto. congruence. }
    destruct Hwf as [-> ->]. simpl. split.
    + destruct (reqCh X w1); simpl; [apply lookup_delete_eq | reflexivity].
    + intros Hq a Ha. rewrite (loop_reqCh_quiet t Hq _ _ _ _ _ Hloop), Hreg0. simpl.
      rewrite lookup_delete_ne, lookup_insert_ne by congruence.
      destruct (reqCh X w); simpl; [reflexivity | apply lookup_empty].
Qed.

(** *** CancelRequest *)

(** X16: after [CancelRequest] the request is not in [reqCh], the
    entries of the other requests are untouched and the call has been
    forwarded to the wrapped CancelRoundTripper; a second [CancelRequest]
    for the same request closes no channel and changes nothing in
    [reqCh]. *)
Theorem CancelRequest_twice (req : Request) (w : World) :
  (reqCh X (CancelRequest req w) ≫= (.!! req_addr req)) = None /\
  closed X (CancelRequest req (CancelRequest req w)) = closed X (CancelRequest req w) /\
  reqCh X (CancelRequest req (CancelRequest req w)) = reqCh X (CancelRequest req w) /\
  (forall a, a <> req_addr req ->
     (reqCh X (CancelRequest req w) ≫= (.!! a)) = (reqCh X w ≫= (.!! a))) /\
  rt X (CancelRequest req w) = rt_CancelRequest req (rt X w).
Proof.
  unfold_cancel.
  destruct (reqCh X w) as [m |] eqn:Hm; simpl.
  - destruct (m !! req_addr req) as [c |] eqn:Hc; simpl;
      rewrite ?lookup_delete_eq; simpl; rewrite ?Hm; simpl;
      rewrite ?lookup_delete_eq; simpl.
    all: repeat split; try reflexivity.
    all: try (intros a Ha; apply lookup_delete_ne; congruence).
    all: f_equal; apply map_eq; intros a;
      destruct (decide (a = req_addr req)) as [-> | Ha];
      rewrite ?lookup_delete_eq, ?lookup_delete_ne by congruence; reflexivity.
  - rewrite Hm. simpl. rewrite Hm. repeat split; reflexivity.
Qed.

(** *** How many attempts *)

Lemma loop_bounded (t : Transport) (n : Z) :
  (forall a s, n <= Index a -> exists d s', retry t a s = (Ret (false, d), s')) ->
  (forall a s, fst (retry t a s) <> Diverge) ->
  n <= max_int64 ->
  forall (j : nat) (st : LoopState) (w : World),
    min_int64 <= ls_attempt st ->
    n - ls_attempt st <= Z.of_nat j ->
    exists o wf,
      loop (S j) t st w = (o, wf) /\ o <> Diverged /\
      (attempts_issued (trace X wf) <= attempts_issued (trace X w) + S j)%nat.
Proof.
  intros Hstop Hnd Hn. induction j as [| j IH]; intros st w Hmin Hj.
  - simpl. unfold_body. unfold_decide.
    destruct (issue_attempt st w) as [[res err] w1] eqn:Hatt.
    destruct (issue_attempt_effects _ _ _ _ _ Hatt) as (_ & _ & Htr).
    assert (Hc : attempts_issued (trace X w1) = S (attempts_issued (trace X w))).
    { rewrite Htr, attempts_issued_app. simpl. unfold attempts_issued at 2. simpl. lia. }
    destruct (ls_preventRetry st).
    { eexists. eexists. split; [reflexivity |]. split; [discriminate | lia]. }
    destruct (Hstop {| Index := ls_attempt st; Request_ := ls_req st;
                       Response_ := res; Error := err |} (gs X w1))
      as (d & s' & ->); [simpl; lia |].
    eexists. eexists. split; [reflexivity |]. split; [discriminate | simpl; lia].
  - change (loop (S (S j)) t st w) with
      (match loop_body t st w with
       | (inl o, w') => (o, w')
       | (inr st', w') => loop (S j) t st' w'
       end).
    destruct (loop_body t st w) as [[o | st'] w'] eqn:Hbody.
    + revert Hbody. unfold_body.
      destruct (attempt_and_decide t st w) as [[o1 | [delay st1]] w2] eqn:Hdec.
      * intros [= <- <-].
        destruct (attempt_and_decide_stop _ _ _ _ _ Hdec)
          as (res & err & w1 & Hatt & Htr2 & _).
        destruct (issue_attempt_effects _ _ _ _ _ Hatt) as (_ & _ & Htr).
        exists o1, w2. split; [reflexivity |]. split.
        -- revert Hdec. unfold_decide. rewrite Hatt.
           destruct (ls_preventRetry st); [intros [= <- _]; discriminate |].
           pose proof (Hnd {| Index := ls_attempt st; Request_ := ls_req st;
                              Response_ := res; Error := err |} (gs X w1)) as Hnd1.
           destruct (retry t _ (gs X w1)) as [[[[|] d] | msg |] g];
             try (intros [= <- _]; discriminate).
           ++ destruct (ls_br st); [unfold Reader_Seek, Reader_consumed; simpl |];
              discriminate.
           ++ exfalso. apply Hnd1. reflexivity.
        -- rewrite Htr2, Htr, attempts_issued_app. unfold attempts_issued at 2.
           simpl. lia.
      * intros Hsel.
        destruct (select_wait_effects _ _ _ _ _ Hsel) as (_ & Htr3 & _ & -> & _).
        destruct (attempt_and_decide_continue _ _ _ _ _ _ Hdec)
          as (res & err & w1 & g & Hatt & _ & _ & _ & _ & _ & _ & _ & Htr2 & _).
        destruct (issue_attempt_effects _ _ _ _ _ Hatt) as (_ & _ & Htr).
        eexists. eexists. split; [reflexivity |]. split; [discriminate |].
        rewrite Htr3, Htr2, Htr, !attempts_issued_app, attempts_issued_drained.
        unfold attempts_issued at 2 3. simpl. lia.
    + destruct (loop_body_continue _ _ _ _ _ Hbody)
        as (res & err & w1 & delay & Hatt & Hr & Htr & Hidx).
      assert (Hlt : ls_attempt st < n).
      { destruct (Z.lt_ge_cases (ls_attempt st) n) as [H | H]; [exact H |].
        destruct (Hstop {| Index := ls_attempt st; Request_ := ls_req st;
                           Response_ := res; Error := err |} (gs X w1))
          as (d & s' & Hs); [simpl; lia |].
        rewrite Hs in Hr. discriminate. }
      assert (Hw : ls_attempt st' = ls_attempt st + 1).
      { rewrite Hidx. apply wrap64_id. unfold in_int64, max_int64, min_int64 in *. lia. }
      destruct (IH st' w') as (o & wf & Hloop & Ho & Hc); [lia | lia |].
      exists o, wf. split; [exact Hloop |]. split; [exact Ho |].
      assert (Hstep : attempts_issued (trace X w') = S (attempts_issued (trace X w))).
      { rewrite Htr. change (EvRoundTrip (ls_req st) :: drained res ++ [EvWait delay])
          with ([EvRoundTrip (ls_req st)] ++ drained res ++ [EvWait delay]).
        rewrite !attempts_issued_app, attempts_issued_drained.
        change (attempts_issued [EvRoundTrip (ls_req st)]) with 1%nat.
        change (attempts_issued [EvWait delay]) with 0%nat. lia. }
      lia.
Qed.

(** X11: when the retry function refuses every attempt from index [n]
    on, [RoundTrip] ends within [n + 1] iterations and calls the wrapped
    RoundTripper at most [n + 1] times. *)
Theorem RoundTrip_bounded_attempts
    (t : Transport) (n : Z) (req : Request) (w : World) :
  (forall a s, n <= Index a -> exists d s', retry t a s = (Ret (false, d), s')) ->
  (forall a s, fst (retry t a s) <> Diverge) ->
  0 <= n <= max_int64 ->
  exists o wf,
    RoundTrip (S (Z.to_nat n)) t req w = (o, wf) /\ o <> Diverged /\
    (attempts_issued (trace X wf)
     <= attempts_issued (trace X w) + Z.to_nat n + 1)%nat.
Proof.
  intros Hstop Hnd Hn. unfold_RoundTrip.
  destruct (RoundTrip_enter t req w) as [[o0 | st0] w0] eqn:Henter.
  - assert (Hw0 : o0 <> Diverged /\ attempts_issued (trace X w0)
                                    = attempts_issued (trace X w)).
    { revert Henter. unfold_enter. unfold make_chan.
      destruct (Body req) as [body |]; [| discriminate].
      destruct (negb _); [| discriminate].
      destruct (rc_err body); [| discriminate].
      intros [= <- <-]. split; [discriminate |].
      destruct (reqCh X w); simpl; rewrite attempts_issued_app; simpl;
        unfold attempts_issued at 2; simpl; lia. }
    destruct Hw0 as [Ho Hc].
    exists o0, (delete_reqCh X req w0).
    split; [destruct o0; congruence || reflexivity |].
    split; [exact Ho | simpl; lia].
  - destruct (RoundTrip_enter_state _ _ _ _ _ Henter) as (H0 & _).
    pose proof (RoundTrip_enter_trace X t req w w0 st0 Henter) as Hc0.
    destruct (loop_bounded t n Hstop Hnd ltac:(lia) (Z.to_nat n) st0 w0)
      as (o & wf & Hloop & Ho & Hc);
      [rewrite H0; unfold min_int64; lia | rewrite H0; lia |].
    rewrite Hloop. exists o, (delete_reqCh X req wf).
    split; [destruct o; congruence || reflexivity |].
    split; [exact Ho | simpl; lia].
Qed.

(** *** The request of every attempt *)

Lemma set_Body_same (R : Request) (b : option ReadCloser) :
  Body R = b -> set_Body b R = R.
Proof. intros <-. destruct R; reflexivity. Qed.

Lemma set_Body_twice (R : Request) (b b' : option ReadCloser) :
  set_Body b (set_Body b' R) = set_Body b R.
Proof. reflexivity. Qed.

Lemma loop_same_request (t : Transport) (R : Request) :
  forall (fuel : nat) (st : LoopState) (w wf : World) (o : outcome),
    ls_req st = R ->
    match ls_br st with
    | Some br => Body R = Some {| rc_data := rd_s br; rc_err := None |}
    | None => True
    end ->
    loop fuel t st w = (o, wf) ->
    exists tr, trace X wf = trace X w ++ tr /\
               forall r, EvRoundTrip r ∈ tr -> r = R.
Proof.
  induction fuel as [| fuel IH]; intros st w wf o HR Hbr.
  - intros [= _ <-]. exists []. rewrite app_nil_r. split; [reflexivity |].
    intros r Hr. inversion Hr.
  - simpl. unfold_body.
    destruct (attempt_and_decide t st w) as [[o1 | [delay st1]] w2] eqn:Hdec.
    + intros [= _ <-].
      destruct (attempt_and_decide_stop _ _ _ _ _ Hdec)
        as (res & err & w1 & Hatt & Htr2 & _).
      destruct (issue_attempt_effects _ _ _ _ _ Hatt) as (_ & _ & Htr).
      exists [EvRoundTrip (ls_req st)]. split; [congruence |].
      intros r Hr. apply list_elem_of_singleton in Hr. congruence.
    + destruct (attempt_and_decide_continue _ _ _ _ _ _ Hdec)
        as (res & err & w1 & g & Hatt & _ & _ & _ & _ & _ & _ & _ & Htr2 & _ & _ & _ & Hst1).
      destruct (issue_attempt_effects _ _ _ _ _ Hatt) as (_ & _ & Htr).
      assert (Hst1' : ls_req st1 = R /\
                      match ls_br st1 with
                      | Some br => Body R = Some {| rc_data := rd_s br; rc_err := None |}
                      | None => True
                      end).
      { destruct (ls_br st) as [br |] eqn:Ebr.
        - destruct Hst1 as [Hb1 Hr1]. rewrite Hb1, Hr1, NopCloser_rewound, HR.
          split; [apply set_Body_same; exact Hbr | simpl; exact Hbr].
        - subst st1. rewrite HR, Ebr. split; [reflexivity | exact I]. }
      destruct Hst1' as [HR1 Hbr1].
      assert (Hattempt : forall r tail,
                 (forall r', EvRoundTrip r' ∈ tail -> r' = R) ->
                 EvRoundTrip r ∈ EvRoundTrip (ls_req st) :: drained res
                                 ++ EvWait delay :: tail -> r = R).
      { intros r tail Htail Hr. apply elem_of_cons in Hr as [Hr | Hr]; [congruence |].
        apply elem_of_app in Hr as [Hr | Hr].
        - destruct res; simpl in Hr; [| inversion Hr].
          apply list_elem_of_singleton in Hr. discriminate.
        - apply elem_of_cons in Hr as [Hr | Hr]; [discriminate | auto]. }
      destruct (select_wait st1 delay w2) as [[o2 | st2] w3] eqn:Hsel;
        destruct (select_wait_effects _ _ _ _ _ Hsel) as (_ & Htr3 & _ & Hx).
      * intros [= _ <-].
        exists (EvRoundTrip (ls_req st) :: drained res ++ [EvWait delay]).
        split.
        -- rewrite Htr3, Htr2, Htr, <- !app_assoc. reflexivity.
        -- intros r Hr. apply (Hattempt r []); [| exact Hr].
           intros r' Hr'. inversion Hr'.
      * intros Hloop. destruct Hx as [_ ->].
        destruct (IH _ w3 wf o (HR1 : ls_req {| ls_attempt := wrap64 (ls_attempt st1 + 1);
                 ls_req := ls_req st1; ls_preventRetry := ls_preventRetry st1;
                 ls_ch := ls_ch st1; ls_br := ls_br st1 |} = R) Hbr1 Hloop)
          as (tr & Htr4 & Hall).
        exists (EvRoundTrip (ls_req st) :: drained res ++ EvWait delay :: tr).
        split.
        -- rewrite Htr4, Htr3, Htr2, Htr, <- !app_assoc. reflexivity.
        -- intros r Hr. apply (Hattempt r tr Hall Hr).
Qed.

(** X12: every attempt of a [RoundTrip] is issued with the same request:
    the caller's request as it is when it has no body or when retrying
    with a body is prevented, and otherwise the caller's request with a
    body that delivers all the bytes of the original one, although each
    attempt reads the buffered reader to its end: the [Seek] before a
    retry rewinds it. *)
Theorem RoundTrip_same_request_every_attempt
    (fuel : nat) (t : Transport) (req : Request) (w wf : World) (o : outcome) :
  RoundTrip fuel t req w = (o, wf) ->
  exists tr,
    trace X wf = trace X w ++ tr /\
    forall r, EvRoundTrip r ∈ tr ->
      r = match Body req with
          | Some body =>
              if PreventRetryWithBody t then req
              else set_Body (Some {| rc_data := rc_data body; rc_err := None |}) req
          | None => req
          end.
Proof.
  unfold_RoundTrip.
  destruct (RoundTrip_enter t req w) as [[o0 | st0] w0] eqn:Henter.
  - assert (Htr : trace X w0 = trace X w ++ [EvCloseRequestBody]).
    { revert Henter. unfold_enter. unfold make_chan.
      destruct (Body req) as [body |]; [| discriminate].
      destruct (negb _); [| discriminate].
      destruct (rc_err body); [| discriminate].
      intros [= _ <-]. destruct (reqCh X w); reflexivity. }
    intros Hrun. exists [EvCloseRequestBody]. split.
    + destruct o0; injection Hrun as _ <-; exact Htr.
    + intros r Hr. apply list_elem_of_singleton in Hr. discriminate.
  - destruct (RoundTrip_enter_state _ _ _ _ _ Henter)
      as (_ & _ & _ & _ & _ & _ & _ & Hcase).
    destruct (loop fuel t st0 w0) as [o1 w1] eqn:Hloop. intros Hrun.
    assert (Hwf : trace X wf = trace X w1).
    { destruct o1; injection Hrun as _ <-; reflexivity. }
    rewrite Hwf. clear Hrun Hwf.
    destruct (Body req) as [body |] eqn:Hb.
    + destruct (PreventRetryWithBody t).
      * destruct Hcase as (HR & Hbr & Htr0).
        destruct (loop_same_request t req fuel st0 w0 w1 o1 HR
                    ltac:(rewrite Hbr; exact I) Hloop) as (tr & Htr & Hall).
        exists tr. split; [congruence | exact Hall].
      * destruct Hcase as (_ & HR & Hbr & Htr0).
        destruct (loop_same_request t _ fuel st0 w0 w1 o1 HR
                    ltac:(rewrite Hbr; reflexivity) Hloop) as (tr & Htr & Hall).
        exists (EvCloseRequestBody :: tr). split.
        -- rewrite Htr, Htr0, <- app_assoc. reflexivity.
        -- intros r Hr. apply elem_of_cons in Hr as [Hr | Hr]; [discriminate | auto].
    + destruct Hcase as (HR & Hbr & Htr0).
      destruct (loop_same_request t req fuel st0 w0 w1 o1 HR
                  ltac:(rewrite Hbr; exact I) Hloop) as (tr & Htr & Hall).
      exists tr. split; [congruence | exact Hall].
Qed.

(** *** Cancellation, again *)


Lemma owned_ext (req : Request) (ch : chan) (w w' : World) :
  reqCh X w' = reqCh X w -> closed X w' = closed X w ->
  owned req ch w -> owned req ch w'.
Proof. unfold owned. intros -> ->. tauto. Qed.

Lemma not_elem_of_close (c c' : chan) (cl : gset chan) :
  c <> c' -> c ∉ cl -> c ∉ ({[c']} ∪ cl : gset chan).
Proof.
  intros Hne Hc. rewrite elem_of_union, elem_of_singleton. intros [H | H]; auto.
Qed.

Lemma env_step_owned (req : Request) (ch : chan) (a : env_action) (w : World) :
  foreign_action req ch a -> owned req ch w -> owned req ch (env_step a w).
Proof.
  intros Hf (Hch & Hcan & Hreg). destruct a as [r | c]; simpl in Hf.
  - unfold_cancel. destruct (reqCh X w) as [m |] eqn:Hm; simpl.
    + assert (Hreg' : forall m' a c, Some (delete (req_addr r) m) = Some m' ->
                m' !! a = Some c -> a <> req_addr req ->
                c <> ch /\ Cancel req <> Some c).
      { intros m' a c [= <-] Hlk Ha.
        destruct (decide (a = req_addr r)) as [-> | Hne].
        - rewrite lookup_delete_eq in Hlk. discriminate.
        - rewrite lookup_delete_ne in Hlk by congruence.
          exact (Hreg m a c eq_refl Hlk Ha). }
      destruct (m !! req_addr r) as [c' |] eqn:Hc'; simpl.
      * destruct (Hreg m (req_addr r) c' eq_refl Hc' Hf) as [Hne1 Hne2].
        split; [apply not_elem_of_close; [congruence | exact Hch] |].
        split; [| exact Hreg'].
        intros c Hc. apply not_elem_of_close; [congruence | exact (Hcan c Hc)].
      * split; [exact Hch |]. split; [exact Hcan | exact Hreg'].
    + split; [exact Hch |]. split; [exact Hcan |].
      intros m a c Hm'. simpl in Hm'. congruence.
  - destruct Hf as [Hne1 Hne2]. split; [apply not_elem_of_close; [congruence | exact Hch] |].
    split; [| exact Hreg].
    intros c' Hc'. apply not_elem_of_close; [congruence | exact (Hcan c' Hc')].
Qed.

Lemma env_run_owned (req : Request) (ch : chan) (acts : list env_action) :
  Forall (foreign_action req ch) acts ->
  forall w : World, owned req ch w -> owned req ch (env_run acts w).
Proof.
  induction 1 as [| a acts Ha _ IH]; intros w Hw; [exact Hw |].
  simpl. apply IH, env_step_owned; assumption.
Qed.

Lemma owned_not_fired (req : Request) (ch : chan) (st : LoopState) (w : World) :
  ls_ch st = ch -> Cancel (ls_req st) = Cancel req ->
  owned req ch w -> cancel_fired X st w = false.
Proof.
  intros Hch Hc (Hnc & Hcan & _). unfold_fired. rewrite Hch, Hc.
  rewrite (bool_decide_eq_false_2 (ch ∈ _) Hnc), orb_false_r.
  destruct (Cancel req) as [c |]; [| reflexivity].
  apply bool_decide_eq_false_2, Hcan. reflexivity.
Qed.

Lemma loop_never_cancelled (t : Transport) (req : Request) (ch : chan) :
  (forall p, Forall (foreign_action req ch) (sched p)) ->
  forall (fuel : nat) (st : LoopState) (w wf : World) (o : outcome),
    ls_ch st = ch -> Cancel (ls_req st) = Cancel req ->
    owned req ch w ->
    loop fuel t st w = (o, wf) -> o <> Diverged ->
    exists r, last (trace X wf) = Some (EvRoundTrip r).
Proof.
  intros Hf. induction fuel as [| fuel IH]; intros st w wf o Hch Hc Hown.
  - intros [= <- _] H. congruence.
  - simpl. unfold_body.
    destruct (attempt_and_decide t st w) as [[o1 | [delay st1]] w2] eqn:Hdec.
    + intros [= _ <-] _.
      destruct (attempt_and_decide_stop _ _ _ _ _ Hdec)
        as (res & err & w1 & Hatt & Htr2 & _).
      destruct (issue_attempt_effects _ _ _ _ _ Hatt) as (_ & _ & Htr).
      exists (ls_req st). rewrite Htr2, Htr. apply last_snoc.
    + destruct (attempt_and_decide_continue _ _ _ _ _ _ Hdec)
        as (res & err & w1 & g & Hatt & _ & _ & _ & _ & Hreg & Hcl & _ & _
            & _ & Hch1 & _ & Hst1).
      destruct (issue_attempt_effects _ _ _ _ _ Hatt) as (HregA & HclA & _).
      assert (Hown2 : owned req ch w2).
      { eapply owned_ext; [| | apply (env_run_owned req ch _ (Hf (InFlight (ls_attempt st))) w Hown)];
          congruence. }
      assert (Hc1 : Cancel (ls_req st1) = Cancel req).
      { destruct (ls_br st) as [br |]; [destruct Hst1 as [_ ->]; exact Hc |].
        subst st1. exact Hc. }
      destruct (select_wait st1 delay w2) as [[o2 | st2] w3] eqn:Hsel;
        destruct (select_wait_effects _ _ _ _ _ Hsel) as (Hw3 & _ & _ & Hx).
      * exfalso. destruct Hx as [_ Hfired].
        rewrite (owned_not_fired req ch st1 w3) in Hfired; [discriminate | congruence | exact Hc1 |].
        rewrite Hw3. apply env_run_owned; [apply Hf |].
        eapply owned_ext; [| | exact Hown2]; reflexivity.
      * destruct Hx as [_ ->]. intros Hloop Hnd.
        apply (IH {| ls_attempt := wrap64 (ls_attempt st1 + 1); ls_req := ls_req st1;
                     ls_preventRetry := ls_preventRetry st1; ls_ch := ls_ch st1;
                     ls_br := ls_br st1 |} w3 wf o); try assumption.
        -- simpl. congruence.
        -- rewrite Hw3. apply env_run_owned; [apply Hf |].
           eapply owned_ext; [| | exact Hown2]; reflexivity.
Qed.

(** X18: when the fresh channel and [req.Cancel] are open and belong to
    the request alone, and the other goroutines only cancel other requests
    or close other channels, [RoundTrip] never returns out of its
    [select]: the last thing it did is an attempt (or closing the body it
    could not read). *)
Theorem RoundTrip_not_cancelled_by_others
    (fuel : nat) (t : Transport) (req : Request) (w wf : World) (o : outcome) :
  owned req (next_chan X w) w ->
  (forall p, Forall (foreign_action req (next_chan X w)) (sched p)) ->
  RoundTrip fuel t req w = (o, wf) ->
  o <> Diverged ->
  exists e, last (trace X wf) = Some e /\
            (e = EvCloseRequestBody \/ exists r, e = EvRoundTrip r).
Proof.
  intros Hown Hf. unfold_RoundTrip.
  destruct (RoundTrip_enter t req w) as [[o0 | st0] w0] eqn:Henter.
  - assert (Htr : trace X w0 = trace X w ++ [EvCloseRequestBody]).
    { revert Henter. unfold_enter. unfold make_chan.
      destruct (Body req) as [body |]; [| discriminate].
      destruct (negb _); [| discriminate].
      destruct (rc_err body); [| discriminate].
      intros [= _ <-]. destruct (reqCh X w); reflexivity. }
    intros Hrun _. exists EvCloseRequestBody. split; [| left; reflexivity].
    assert (Hwf : trace X wf = trace X w0).
    { destruct o0; injection Hrun as _ <-; reflexivity. }
    rewrite Hwf, Htr. apply last_snoc.
  - destruct (RoundTrip_enter_state _ _ _ _ _ Henter)
      as (_ & Hch0 & _ & Hcl0 & _ & _ & Hreg0 & Hcase).
    assert (Hc0 : Cancel (ls_req st0) = Cancel req).
    { destruct (Body req); [destruct (PreventRetryWithBody t) |].
      - destruct Hcase as (-> & _). reflexivity.
      - destruct Hcase as (_ & -> & _). reflexivity.
      - destruct Hcase as (-> & _). reflexivity. }
    assert (Hown0 : owned req (next_chan X w) w0).
    { destruct Hown as (H1 & H2 & H3). split; [rewrite Hcl0; exact H1 |].
      split; [intros c Hc; rewrite Hcl0; exact (H2 c Hc) |].
      intros m a c Hm Hlk Ha. rewrite Hreg0 in Hm. injection Hm as <-.
      rewrite lookup_insert_ne in Hlk by congruence.
      destruct (reqCh X w) as [m0 |] eqn:Hm0; simpl in Hlk.
      - exact (H3 m0 a c eq_refl Hlk Ha).
      - rewrite lookup_empty in Hlk. discriminate. }
    destruct (loop fuel t st0 w0) as [o1 w1] eqn:Hloop. intros Hrun Hnd.
    assert (Hwf : o = o1 /\ trace X wf = trace X w1).
    { destruct o1; injection Hrun as <- <-; auto. }
    destruct Hwf as [-> Hwf].
    destruct (loop_never_cancelled t req _ Hf fuel st0 w0 w1 o1 Hch0 Hc0 Hown0 Hloop Hnd)
      as [r Hr].
    exists (EvRoundTrip r). split; [congruence | right; eauto].
Qed.

(** *** The waits *)

Lemma loop_waits (t : Transport) (P : Duration -> Prop) :
  (forall a s d s', retry t a s = (Ret (true, d), s') -> P d) ->
  forall (fuel : nat) (st : LoopState) (w wf : World) (o : outcome),
    loop fuel t st w = (o, wf) ->
    exists tr, trace X wf = trace X w ++ tr /\
               forall d, EvWait d ∈ tr -> P d.
Proof.
  intros HP. induction fuel as [| fuel IH]; intros st w wf o.
  - intros [= _ <-]. exists []. rewrite app_nil_r. split; [reflexivity |].
    intros d Hd. inversion Hd.
  - simpl. destruct (loop_body t st w) as [[o1 | st1] w1] eqn:Hbody.
    + intros [= _ <-]. revert Hbody. unfold_body.
      destruct (attempt_and_decide t st w) as [[o2 | [delay st2]] w2] eqn:Hdec.
      * intros [= _ <-].
        destruct (attempt_and_decide_stop _ _ _ _ _ Hdec)
          as (res & err & wA & Hatt & Htr2 & _).
        destruct (issue_attempt_effects _ _ _ _ _ Hatt) as (_ & _ & Htr).
        exists [EvRoundTrip (ls_req st)]. split; [congruence |].
        intros d Hd. apply list_elem_of_singleton in Hd. discriminate.
      * intros Hsel.
        destruct (select_wait_effects _ _ _ _ _ Hsel) as (_ & Htr3 & _).
        destruct (attempt_and_decide_continue _ _ _ _ _ _ Hdec)
          as (res & err & wA & g & Hatt & _ & Hr & _ & _ & _ & _ & _ & Htr2 & _).
        destruct (issue_attempt_effects _ _ _ _ _ Hatt) as (_ & _ & Htr).
        exists (EvRoundTrip (ls_req st) :: drained res ++ [EvWait delay]). split.
        -- rewrite Htr3, Htr2, Htr, <- !app_assoc. reflexivity.
        -- intros d Hd. apply elem_of_cons in Hd as [Hd | Hd]; [discriminate |].
           apply elem_of_app in Hd as [Hd | Hd].
           ++ destruct res; simpl in Hd; [| inversion Hd].
              apply list_elem_of_singleton in Hd. discriminate.
           ++ apply list_elem_of_singleton in Hd. injection Hd as ->.
              exact (HP _ _ _ _ Hr).
    + intros Hloop.
      destruct (loop_body_continue _ _ _ _ _ Hbody)
        as (res & err & wA & delay & Hatt & Hr & Htr & _).
      destruct (IH _ _ _ _ Hloop) as (tr & Htr4 & Hall).
      exists (EvRoundTrip (ls_req st) :: drained res ++ EvWait delay :: tr). split.
      * rewrite Htr4, Htr. repeat (rewrite <- app_assoc; simpl). reflexivity.
      * intros d Hd. apply elem_of_cons in Hd as [Hd | Hd]; [discriminate |].
        apply elem_of_app in Hd as [Hd | Hd].
        -- destruct res; simpl in Hd; [| inversion Hd].
           apply list_elem_of_singleton in Hd. discriminate.
        -- apply elem_of_cons in Hd as [Hd | Hd]; [| auto].
           injection Hd as ->. exact (HP _ _ _ _ Hr).
Qed.

(** X13: with [ConstDelay d] as delay function, every wait between two
    attempts of a [RoundTrip] is for exactly [d]. *)
Theorem RoundTrip_ConstDelay_waits
    (fuel : nat) (shouldRetry : ShouldRetryFn) (d : Duration) (prevent : bool)
    (req : Request) (w wf : World) (o : outcome) :
  RoundTrip fuel {| PreventRetryWithBody := prevent;
                    retry := toRetryFn shouldRetry (ConstDelay d) |} req w
  = (o, wf) ->
  exists tr, trace X wf = trace X w ++ tr /\
             forall d', EvWait d' ∈ tr -> d' = d.
Proof.
  set (t := {| PreventRetryWithBody := prevent;
               retry := toRetryFn shouldRetry (ConstDelay d) |}).
  assert (HP : forall a s d' s', retry t a s = (Ret (true, d'), s') -> d' = d).
  { intros a s d' s'. simpl. unfold toRetryFn, bind.
    destruct (shouldRetry a s) as [[[|] | msg |] s1]; simpl; unfold ret;
      intros [= ]; congruence. }
  unfold_RoundTrip.
  destruct (RoundTrip_enter t req w) as [[o0 | st0] w0] eqn:Henter.
  - assert (Htr : trace X w0 = trace X w ++ [EvCloseRequestBody]).
    { revert Henter. unfold_enter. unfold make_chan.
      destruct (Body req) as [body |]; [| discriminate].
      destruct (negb _); [| discriminate].
      destruct (rc_err body); [| discriminate].
      intros [= _ <-]. destruct (reqCh X w); reflexivity. }
    intros Hrun. exists [EvCloseRequestBody]. split.
    + destruct o0; injection Hrun as _ <-; exact Htr.
    + intros d' Hd. apply list_elem_of_singleton in Hd. discriminate.
  - destruct (loop fuel t st0 w0) as [o1 w1] eqn:Hloop. intros Hrun.
    assert (Hwf : trace X wf = trace X w1).
    { destruct o1; injection Hrun as _ <-; reflexivity. }
    destruct (loop_waits t _ HP fuel st0 w0 w1 o1 Hloop) as (tr & Htr & Hall).
    destruct (RoundTrip_enter_state _ _ _ _ _ Henter)
      as (_ & _ & _ & _ & _ & _ & _ & Hcase).
    assert (Htr0 : trace X w0 = trace X w \/
                   trace X w0 = trace X w ++ [EvCloseRequestBody]).
    { destruct (Body req); [destruct (PreventRetryWithBody t) |];
        intuition. }
    destruct Htr0 as [Htr0 | Htr0].
    + exists tr. split; [congruence | exact Hall].
    + exists (EvCloseRequestBody :: tr). split.
      * rewrite Hwf, Htr, Htr0, <- app_assoc. reflexivity.
      * intros d' Hd. apply elem_of_cons in Hd as [Hd | Hd]; [discriminate | auto].
Qed.

End RoundTripMore.

(** X8: on a transport built by [NewTransport] (which wraps [rt] when
    one is given), when [shouldRetry] refuses the first attempt,
    [RoundTrip] returns the response and error of that attempt after a
    single call of the wrapped RoundTripper, and the state is the one
    [shouldRetry] left: [delay] is not run. *)
Theorem NewTransport_first_refusal
    (X : Type) (DefaultTransport rt : option (CancelRoundTripper X))
    (shouldRetry : ShouldRetryFn) (delay : DelayFn)
    (c : CancelRoundTripper X) (t : Transport)
    (sched : phase -> list env_action) (fuel : nat) (req : Request)
    (w w0 w1 : World X) (st0 : LoopState)
    (res : option Response) (err : option error) (g : GoState) :
  NewTransport DefaultTransport rt shouldRetry delay = (Some (c, t), None) ->
  RoundTrip_enter X t req w = (inr st0, w0) ->
  issue_attempt X (crt_RoundTrip c) (crt_CancelRequest c) sched st0 w0
  = (res, err, w1) ->
  shouldRetry {| Index := 0; Request_ := ls_req st0; Response_ := res; Error := err |}
    (gs X w1) = (Ret false, g) ->
  exists wf : World X,
    RoundTrip X (crt_RoundTrip c) (crt_CancelRequest c) sched (S fuel) t req w
    = (Return res err, wf) /\
    gs X wf = g /\ trace X wf = trace X w1 /\
    (forall r, rt = Some r -> c = r).
Proof.
  intros Hnew Henter Hatt Hsr.
  assert (Ht : t = {| PreventRetryWithBody := false;
                      retry := toRetryFn shouldRetry delay |} /\
               (forall r, rt = Some r -> c = r)).
  { revert Hnew. unfold NewTransport.
    destruct rt as [r |]; [| destruct DefaultTransport as [d |]];
      intros [= <- <-] || discriminate; (split; [reflexivity |]).
    - intros r' [= <-]. reflexivity.
    - discriminate. }
  destruct Ht as [-> Hrt].
  assert (Hst0 : ls_attempt st0 = 0 /\ ls_preventRetry st0 = false).
  { revert Henter. unfold RoundTrip_enter. simpl. rewrite andb_false_r.
    destruct (Body req) as [body |]; simpl;
      [destruct (rc_err body); [discriminate |] |];
      intros [= <- _]; auto. }
  destruct Hst0 as [Hidx Hp].
  unfold RoundTrip. rewrite Henter. simpl. unfold loop_body, attempt_and_decide.
  rewrite Hatt, Hp. simpl retry. unfold toRetryFn. rewrite Hidx.
  rewrite (bind_Ret _ _ _ _ _ Hsr). simpl.
  eexists. split; [reflexivity |]. simpl. auto.
Qed.

(** ** More on the exponential delay *)

Lemma binary_round_aux_opp (m e : Z) (l : location) :
  binary_round_aux prec emax true m e l
  = SFopp (binary_round_aux prec emax false m e l).
Proof.
  unfold binary_round_aux.
  destruct (shr_fexp prec emax m e l) as [mrs' e'].
  destruct (shr_fexp prec emax _ e' loc_Exact) as [mrs'' e''].
  destruct (shr_m mrs''); [reflexivity | | reflexivity].
  destruct (e'' <=? emax - prec); reflexivity.
Qed.

(** [float64(-z)] is [-float64(z)]. *)
Lemma float64_of_int_opp (z : Z) :
  0 < z -> float64_of_int (- z) = SFopp (float64_of_int z).
Proof.
  intros Hz. destruct z as [| p | p]; try lia.
  change (- Z.pos p) with (Z.neg p).
  unfold float64_of_int, binary_normalize, binary_round.
  destruct (shl_align p 0 _) as [mz ez]. apply binary_round_aux_opp.
Qed.

(** [float64] of a positive [int64], or of [2^63] (the negation of the
    smallest [int64]): a positive float whose integer part is at most
    [2^63]. *)
Lemma float64_of_int_positive (z : Z) :
  0 < z <= 2 ^ 63 ->
  exists (m : positive) (e : Z),
    float64_of_int z = S754_finite false m e /\
    digits2_pos m = 53%positive /\ -52 <= e /\
    0 < float_trunc (S754_finite false m e) <= 2 ^ 63.
Proof.
  intros Hz.
  destruct (Z.lt_ge_cases z (2 ^ 53)) as [Hsmall | Hlarge].
  - destruct (float64_of_int_exact z ltac:(lia)) as (m & e & Hf & Hd & He & Hv).
    exists m, e. split; [exact Hf |]. split; [exact Hd |]. split; [lia |].
    rewrite (float_trunc_exact m e z) by (lia || exact Hv). lia.
  - destruct (Z.eq_dec z (2 ^ 63)) as [-> | Hne].
    + exists 4503599627370496%positive, 11. repeat split; vm_compute; congruence.
    + destruct (float64_of_int_large_canonical z) as (m & e & Hf & Hd & He & Hv);
        [unfold max_int64; lia |].
      exists m, e. split; [exact Hf |]. split; [exact Hd |]. split; [lia |].
      unfold float_trunc. simpl cond_Zopp.
      destruct e as [| pe | pe]; try lia.
Qed.

Section DelayMore.

Variable conv : float64 -> Z.

Lemma exp_top_positive_any (base index : Z) :
  0 < base <= max_int64 -> 0 <= index <= max_int64 ->
  exp_top base index = S754_infinity false \/
  exists m e, exp_top base index = S754_finite false m e.
Proof.
  intros Hb Hi.
  destruct (float64_of_int_positive base) as (mb & eb & Hfb & Hdb & Heb & _);
    [unfold max_int64 in Hb; lia |].
  unfold exp_top. rewrite Hfb, (math_Pow2_index index Hi).
  destruct (index <=? 1023); [| left; reflexivity].
  rewrite (SFmul_pow2 mb eb index Hdb) by lia.
  destruct (eb + index <=? 971); [right; eauto | left; reflexivity].
Qed.

(** With a cap of zero or less the bound is zero or less, whatever the
    positive base. *)
Lemma exp_bound_cap_nonpositive (base max index : Z) :
  0 < base <= max_int64 -> min_int64 <= max <= 0 -> 0 <= index <= max_int64 ->
  exp_bound conv base max index <= 0.
Proof.
  intros Hb Hm Hi. unfold exp_bound.
  destruct (Z.eq_dec max 0) as [-> | Hne].
  - destruct (exp_top_positive_any base index Hb Hi) as [-> | (m & e & ->)];
      simpl; lia.
  - rewrite <- (Z.opp_involutive max). rewrite float64_of_int_opp by lia.
    destruct (float64_of_int_positive (- max)) as (mm & em & -> & _ & _ & Hv);
      [unfold min_int64 in Hm; lia |].
    assert (Hmin : math_Min (SFopp (S754_finite false mm em)) (exp_top base index)
                   = S754_finite true mm em).
    { destruct (exp_top_positive_any base index Hb Hi) as [-> | (m & e & ->)];
        reflexivity. }
    rewrite Hmin.
    assert (Ht : float_trunc (S754_finite true mm em)
                 = - float_trunc (S754_finite false mm em)) by reflexivity.
    unfold int64_of_float64. rewrite Ht.
    set (T := float_trunc (S754_finite false mm em)) in *. clearbody T.
    assert (H1 : (min_int64 <=? - T) = true)
      by (apply Z.leb_le; unfold min_int64; clear - Hv; lia).
    assert (H2 : (- T <=? max_int64) = true)
      by (apply Z.leb_le; unfold max_int64; clear - Hv; lia).
    rewrite H1, H2. simpl andb. cbv iota. clear - Hv. lia.
Qed.

(** With a base of 0 the bound is 0 up to index 1023, whatever the
    positive cap. *)
Lemma exp_bound_zero_base (max index : Z) :
  0 < max <= max_int64 -> 0 <= index <= 1023 ->
  exp_bound conv 0 max index = 0.
Proof.
  intros Hm Hi.
  destruct (float64_of_int_positive max) as (mm & em & Hfm & _);
    [unfold max_int64 in Hm; lia |].
  unfold exp_bound, exp_top.
  rewrite Hfm, (math_Pow2_index index) by (unfold max_int64; lia).
  destruct (Z.leb_spec index 1023); [| lia].
  reflexivity.
Qed.

(** X19: [ExponentialDelay] panics on every attempt up to index 1023
    when the base is 0 and the cap is positive, and on every attempt when
    the cap is 0 or negative and the base is positive, whatever these
    durations are. *)
Theorem ExponentialDelay_degenerate_panics
    (base max : Duration) (attempt : Attempt) (s : GoState) :
  (base = 0 /\ 0 < max <= max_int64 /\ 0 <= Index attempt <= 1023) \/
  (0 < base <= max_int64 /\ min_int64 <= max <= 0 /\
   0 <= Index attempt <= max_int64) ->
  ExponentialDelay conv base max attempt s
  = (Panic "invalid argument to Int63n", s).
Proof.
  intros H. apply ExponentialDelay_panics_without_bound.
  destruct H as [(-> & Hm & Hi) | (Hb & Hm & Hi)].
  - rewrite (exp_bound_zero_base max (Index attempt)) by assumption. lia.
  - apply exp_bound_cap_nonpositive; assumption.
Qed.

(** X20: for a base and a cap from 1 ns to below [2^53] ns, the bound
    below which the delay is drawn is at least 1, never decreases from
    one attempt to the next, never exceeds the cap, and is the cap as
    soon as [base * 2^index] reaches it. *)
Theorem exp_bound_grows_to_cap (base max index : Z) :
  0 < base < 2 ^ 53 -> 0 < max < 2 ^ 53 -> 0 <= index < max_int64 ->
  1 <= exp_bound conv base max index <= exp_bound conv base max (index + 1) /\
  exp_bound conv base max (index + 1) <= max /\
  (max <= base * 2 ^ index -> exp_bound conv base max index = max).
Proof.
  intros Hb Hm Hi.
  rewrite !exp_bound_exact by lia.
  assert (0 < 2 ^ index) by (apply Z.pow_pos_nonneg; lia).
  rewrite Z.pow_add_r by lia. change (2 ^ 1) with 2.
  repeat split; lia.
Qed.

End DelayMore.

(** ** The further properties on concrete runs *)

Lemma RetryAny_short_circuit_witness :
  RetryAny [RetryTemporaryErr 3; RetryStatus500 3; unreachable_fn]
    (attempt_503 0) (go0 (rand_const 0))
  = (Ret true, go0 (rand_const 0)).
Proof.
  apply (RetryAny_short_circuit [RetryTemporaryErr 3] [unreachable_fn]
           (RetryStatus500 3) (attempt_503 0) (go0 (rand_const 0))
           (go0 (rand_const 0))).
  - repeat constructor.
  - reflexivity.
Defined.

Lemma RetryAll_short_circuit_witness :
  RetryAll [RetryStatus500 3; RetryTemporaryErr 3; unreachable_fn]
    (attempt_503 0) (go0 (rand_const 0))
  = (Ret false, go0 (rand_const 0)).
Proof.
  apply (RetryAll_short_circuit [RetryStatus500 3] [unreachable_fn]
           (RetryTemporaryErr 3) (attempt_503 0) (go0 (rand_const 0))
           (go0 (rand_const 0))).
  - repeat constructor.
  - reflexivity.
Defined.

Lemma RetryAny_stops_at_witness :
  exists s', RetryAny [RetryStatus500 3; RetryTemporaryErr 3]
               (attempt_503 3) (go0 (rand_const 0)) = (Ret false, s').
Proof.
  apply (RetryAny_stops_at 3 [RetryStatus500 3; RetryTemporaryErr 3]).
  - repeat constructor; intros a s H; exists s.
    + unfold RetryStatus500. destruct (Z.geb_spec (Index a) 3); [reflexivity | lia].
    + unfold RetryTemporaryErr. destruct (Z.geb_spec (Index a) 3); [reflexivity | lia].
  - simpl. lia.
Defined.

Lemma RetryHTTPMethods_no_methods_witness :
  exists fn : ShouldRetryFn,
    RetryHTTPMethods no_unicode 1 {| sl_arr := 9%positive; sl_off := 0; sl_len := 0 |}
      (go0 (rand_const 0)) = (Ret fn, go0 (rand_const 0)) /\
    fn (method_attempt 0 "GET") (go0 (rand_const 0)) = (Ret false, go0 (rand_const 0)).
Proof.
  destruct (RetryHTTPMethods_no_methods no_unicode 1
              {| sl_arr := 9%positive; sl_off := 0; sl_len := 0 |}
              (go0 (rand_const 0)) eq_refl) as (fn & Hrun & Hfn).
  exists fn. split; [exact Hrun | apply Hfn].
Defined.

Lemma RetryHTTPMethods_reads_shared_slice_witness :
  exists (fn : ShouldRetryFn) (s' : GoState),
    RetryHTTPMethods no_unicode 1 (all_of ["GET"]) (methods_heap ["GET"]) = (Ret fn, s') /\
    fn (method_attempt 0 "GET") (methods_heap ["get"])
    = (Ret false, methods_heap ["get"]).
Proof.
  destruct (RetryHTTPMethods_reads_shared_slice no_unicode 1 (all_of ["GET"])
              (methods_heap ["GET"])) as (fn & s' & Hrun & Hfn).
  - vm_compute. lia.
  - exists fn, s'. split; [exact Hrun |].
    destruct (Hfn (method_attempt 0 "GET") (methods_heap ["get"]))
      as (b & Hb & Hiff); [vm_compute; lia | reflexivity |].
    rewrite Hb. destruct b; [| reflexivity].
    exfalso. destruct Hiff as [Hin _]. specialize (Hin eq_refl).
    vm_compute in Hin. apply list_elem_of_In in Hin. simpl in Hin.
    destruct Hin as [Hin | []]. discriminate.
Defined.

Lemma RetryHTTPMethods_retries_any_outcome_witness :
  exists (fn : ShouldRetryFn) (s' : GoState),
    RetryHTTPMethods no_unicode 1 (all_of ["get"]) (methods_heap ["get"]) = (Ret fn, s') /\
    fn (attempt_200 0 "GET") s' = (Ret true, s').
Proof.
  destruct (RetryHTTPMethods_retries_any_outcome no_unicode 1 (all_of ["get"])
              (methods_heap ["get"]) "get") as (fn & s' & Hrun & Hfn).
  - vm_compute. lia.
  - vm_compute. apply list_elem_of_In. simpl. tauto.
  - exists fn, s'. split; [exact Hrun |].
    apply (Hfn 0 (get_request 1 "GET") (Some res200) None); reflexivity.
Defined.

Lemma RetryHTTPMethods_upper_case_unchanged_witness :
  exists fn : ShouldRetryFn,
    RetryHTTPMethods no_unicode 3 (all_of ["GET"; "POST"]) (methods_heap ["GET"; "POST"])
    = (Ret fn, methods_heap ["GET"; "POST"]).
Proof.
  apply (RetryHTTPMethods_upper_case_unchanged no_unicode 3 (all_of ["GET"; "POST"])
           (methods_heap ["GET"; "POST"])).
  - vm_compute. lia.
  - intros m Hm. vm_compute in Hm. apply list_elem_of_In in Hm. simpl in Hm.
    destruct Hm as [<- | [<- | []]]; reflexivity.
Defined.

Lemma NewTransport_first_refusal_witness :
  exists wf : World nat,
    RoundTrip nat rt_503_then_200 rt_ignore_cancel quiet 1
      {| PreventRetryWithBody := false;
         retry := toRetryFn (RetryTemporaryErr 3)
                    (ExponentialDelay conv_amd64 0 Second) |}
      (get_request 1 "GET") world0
    = (Return (Some res503) None, wf) /\
    gs nat wf = go0 (rand_const 0).
Proof.
  edestruct (NewTransport_first_refusal nat None (Some crt_503_then_200)
               (RetryTemporaryErr 3) (ExponentialDelay conv_amd64 0 Second)
               crt_503_then_200
               {| PreventRetryWithBody := false;
                  retry := toRetryFn (RetryTemporaryErr 3)
                             (ExponentialDelay conv_amd64 0 Second) |}
               quiet 0 (get_request 1 "GET") world0)
    as (wf & Hrun & Hgs & _);
    [reflexivity | vm_compute; reflexivity | vm_compute; reflexivity
    | vm_compute; reflexivity |].
  exists wf. split; [exact Hrun | exact Hgs].
Defined.

Lemma loop_body_retry_order_witness :
  exists (st' : LoopState) (w' : World nat),
    loop_body nat rt_503_then_200 rt_ignore_cancel quiet retry_5xx
      first_iteration world0 = (inr st', w') /\
    trace nat w'
    = [EvRoundTrip (get_request 1 "GET"); EvDrainClose 10%positive; EvWait Second] /\
    ls_attempt st' = 1.
Proof.
  destruct (loop_body nat rt_503_then_200 rt_ignore_cancel quiet retry_5xx
              first_iteration world0) as [[o | st'] w'] eqn:Hbody;
    [vm_compute in Hbody; discriminate |].
  destruct (loop_body_retry_order nat rt_503_then_200 rt_ignore_cancel quiet
              retry_5xx first_iteration st' world0 w' Hbody)
    as (res & err & w1 & delay & Hatt & Hr & Htr & Hidx).
  exists st', w'. split; [reflexivity |].
  vm_compute in Hatt. injection Hatt as <- <- <-.
  vm_compute in Hr. injection Hr as <- _.
  split; [exact Htr | exact Hidx].
Defined.

Lemma iterate_counts_attempts_witness :
  exists (st0 st : LoopState) (w0 w1 : World nat),
    RoundTrip_enter nat retry_5xx (get_request 1 "GET") world0 = (inr st0, w0) /\
    iterate nat rt_always_503 rt_ignore_cancel quiet 2 retry_5xx st0 w0 = Some (st, w1) /\
    ls_attempt st = 2 /\
    attempts_issued (trace nat w1) = 2%nat.
Proof.
  edestruct (iterate_counts_attempts nat rt_always_503 rt_ignore_cancel quiet 2
               retry_5xx (get_request 1 "GET") world0)
    as [Hidx Hn];
    [vm_compute; reflexivity | vm_compute; reflexivity | vm_compute; discriminate |].
  do 4 eexists. split; [vm_compute; reflexivity |]. split; [vm_compute; reflexivity |].
  split; [exact Hidx | exact Hn].
Defined.

Lemma RoundTrip_bounded_attempts_witness :
  exists (o : outcome) (wf : World nat),
    RoundTrip nat rt_always_503 rt_ignore_cancel quiet 4 retry_5xx
      (get_request 1 "GET") world0 = (o, wf) /\
    o <> Diverged /\
    (attempts_issued (trace nat wf) <= 4)%nat.
Proof.
  destruct (RoundTrip_bounded_attempts nat rt_always_503 rt_ignore_cancel quiet
              retry_5xx 3 (get_request 1 "GET") world0)
    as (o & wf & Hrun & Ho & Hn).
  - intros a s H. exists 0, s. simpl. unfold toRetryFn, RetryStatus500, bind.
    destruct (Z.geb_spec (Index a) 3); [reflexivity | lia].
  - intros a s. simpl. unfold toRetryFn, RetryStatus500, ConstDelay, bind, ret.
    destruct (Index a >=? 3); [discriminate |].
    destruct (Response_ a) as [r |]; [| discriminate].
    destruct ((StatusCode r >=? 500) && (StatusCode r <? 600)); discriminate.
  - vm_compute. split; discriminate.
  - exists o, wf. split; [exact Hrun |]. split; [exact Ho | exact Hn].
Defined.

Lemma RoundTrip_same_request_every_attempt_witness :
  exists tr : list event,
    trace nat (snd (RoundTrip nat rt_always_503 rt_ignore_cancel quiet 5 retry_5xx
                      (post_request {| rc_data := "payload"; rc_err := None |}) world0))
    = trace nat world0 ++ tr /\
    forall r, EvRoundTrip r ∈ tr ->
      r = set_Body (Some {| rc_data := "payload"; rc_err := None |})
            (post_request {| rc_data := "payload"; rc_err := None |}).
Proof.
  apply (RoundTrip_same_request_every_attempt nat rt_always_503 rt_ignore_cancel
           quiet 5 retry_5xx (post_request {| rc_data := "payload"; rc_err := None |})
           world0 _ (fst (RoundTrip nat rt_always_503 rt_ignore_cancel quiet 5 retry_5xx
                           (post_request {| rc_data := "payload"; rc_err := None |})
                           world0))).
  apply surjective_pairing.
Defined.

Lemma RoundTrip_ConstDelay_waits_witness :
  exists tr : list event,
    trace nat (snd (RoundTrip nat rt_always_503 rt_ignore_cancel quiet 5 retry_5xx
                      (get_request 1 "GET") world0))
    = trace nat world0 ++ tr /\
    forall d, EvWait d ∈ tr -> d = Second.
Proof.
  apply (RoundTrip_ConstDelay_waits nat rt_always_503 rt_ignore_cancel quiet 5
           (RetryStatus500 3) Second false (get_request 1 "GET") world0 _
           (fst (RoundTrip nat rt_always_503 rt_ignore_cancel quiet 5 retry_5xx
                   (get_request 1 "GET") world0))).
  apply surjective_pairing.
Defined.

Lemma RoundTrip_retry_panics_witness :
  exists wf : World nat,
    RoundTrip nat rt_503_then_200 rt_ignore_cancel quiet 3 retry_5xx_zero_base
      (get_request 1 "GET") world0
    = (Panicked "invalid argument to Int63n", wf) /\
    trace nat wf = [EvRoundTrip (get_request 1 "GET")].
Proof.
  edestruct (RoundTrip_retry_panics nat rt_503_then_200 rt_ignore_cancel quiet
               0 3 retry_5xx_zero_base (get_request 1 "GET") world0)
    as (wf & Hrun & Htr & _);
    [vm_compute; reflexivity | vm_compute; reflexivity | vm_compute; reflexivity
    | reflexivity | vm_compute; reflexivity | lia |].
  exists wf. split; [exact Hrun | exact Htr].
Defined.

Lemma RoundTrip_registry_witness :
  (reqCh nat (snd (RoundTrip nat rt_503_then_200 rt_ignore_cancel quiet 5 retry_5xx
                     (get_request 1 "GET") world1)) ≫= (.!! 1%positive)) = None /\
  (reqCh nat (snd (RoundTrip nat rt_503_then_200 rt_ignore_cancel quiet 5 retry_5xx
                     (get_request 1 "GET") world1)) ≫= (.!! 5%positive))
  = Some 50%positive.
Proof.
  destruct (RoundTrip_registry nat rt_503_then_200 rt_ignore_cancel quiet 5 retry_5xx
              (get_request 1 "GET") world1
              (snd (RoundTrip nat rt_503_then_200 rt_ignore_cancel quiet 5 retry_5xx
                      (get_request 1 "GET") world1))
              (fst (RoundTrip nat rt_503_then_200 rt_ignore_cancel quiet 5 retry_5xx
                      (get_request 1 "GET") world1)))
    as [Hown Hothers]; [apply surjective_pairing | vm_compute; discriminate |].
  split; [exact Hown |].
  rewrite Hothers; [reflexivity | intros p; reflexivity | discriminate].
Defined.


Lemma RoundTrip_not_cancelled_by_others_witness :
  exists e : event,
    last (trace nat (snd (RoundTrip nat rt_503_then_200 rt_ignore_cancel cancel_another
                            5 retry_5xx (get_request 1 "GET") world1))) = Some e /\
    (e = EvCloseRequestBody \/ exists r, e = EvRoundTrip r).
Proof.
  apply (RoundTrip_not_cancelled_by_others nat rt_503_then_200 rt_ignore_cancel
           cancel_another 5 retry_5xx (get_request 1 "GET") world1 _
           (fst (RoundTrip nat rt_503_then_200 rt_ignore_cancel cancel_another
                   5 retry_5xx (get_request 1 "GET") world1))).
  - split; [simpl; apply not_elem_of_empty |].
    split; [intros c Hc; discriminate |].
    intros m a c [= <-] Hlk Ha.
    apply lookup_singleton_Some in Hlk as [<- <-]. split; discriminate.
  - intros p. repeat constructor. simpl. discriminate.
  - apply surjective_pairing.
  - vm_compute. discriminate.
Defined.

Lemma ExponentialDelay_degenerate_panics_witness :
  ExponentialDelay conv_amd64 0 (2 ^ 62) (attempt0 5) (go0 (rand_const 7))
  = (Panic "invalid argument to Int63n", go0 (rand_const 7)) /\
  ExponentialDelay conv_amd64 Second (- 2 ^ 60) (attempt0 5) (go0 (rand_const 7))
  = (Panic "invalid argument to Int63n", go0 (rand_const 7)).
Proof.
  split.
  - apply (ExponentialDelay_degenerate_panics conv_amd64 0 (2 ^ 62) (attempt0 5)).
    left. vm_compute. repeat split; congruence.
  - apply (ExponentialDelay_degenerate_panics conv_amd64 Second (- 2 ^ 60) (attempt0 5)).
    right. vm_compute. repeat split; congruence.
Defined.

Lemma exp_bound_grows_to_cap_witness :
  1 <= exp_bound conv_amd64 (100 * Millisecond) (10 * Second) 3
    <= exp_bound conv_amd64 (100 * Millisecond) (10 * Second) (3 + 1) /\
  exp_bound conv_amd64 (100 * Millisecond) (10 * Second) (3 + 1) <= 10 * Second /\
  (10 * Second <= 100 * Millisecond * 2 ^ 3 ->
   exp_bound conv_amd64 (100 * Millisecond) (10 * Second) 3 = 10 * Second).
Proof.
  apply (exp_bound_grows_to_cap conv_amd64 (100 * Millisecond) (10 * Second) 3);
    vm_compute; split; congruence.
Defined.
